(** * The PubSubHubbub hub work pipeline ([hub/main.py]), embedded in Rocq

    Every model class of [hub/main.py] is a record in a module of the same
    name; the datastore is one finite map per entity kind, keyed by the
    entity's key name; memcache is a finite map from lock keys to values.
    Times ([datetime]) are integers counting seconds, [timedelta(seconds=d)]
    is the integer [d].  Python's unbounded [int] is [Z]; list lengths,
    slice bounds and fetch limits are [nat].  The failure counters start at
    0 and are only ever incremented; [2 ** n] is [2 ^ n] for such [n], and
    every statement on a backoff delay assumes [0 <= n].  Queries read the
    store as it is.  A Python dictionary is a [gmap]; its iteration order is
    the order of [map_to_list].

    [hashlib.sha1] is not part of the repository: the definitions take the
    digest function as a parameter [sha1_hash]. *)

From stdpp Require Import gmap strings list fin_maps sorting.
From Stdlib Require Import ZArith Lia.

(** ** Config parameters *)

Definition EXPIRATION_DELTA : Z := 90 * 86400.
Definition LEASE_PERIOD_SECONDS : Z := 15.
Definition EVENT_SUBSCRIBER_CHUNK_SIZE : nat := 10.
Definition MAX_SUBSCRIPTION_CONFIRM_FAILURES : Z := 10.
Definition SUBSCRIPTION_RETRY_PERIOD : Z := 300.
Definition MAX_FEED_PULL_FAILURES : Z := 9.
Definition FEED_PULL_RETRY_PERIOD : Z := 60.
Definition MAX_DELIVERY_FAILURES : Z := 8.
Definition DELIVERY_RETRY_PERIOD : Z := 60.
Definition BOOSTRAP_FEED_CHUNK_SIZE : nat := 200.
Definition POLLING_BOOTSTRAP_PERIOD : Z := 10800.

(** ** Constants *)

Definition ATOM : string := "atom".
Definition RSS : string := "rss".

(** The one-character string ['\n']. *)
Definition newline : string := String (Ascii.ascii_of_nat 10) EmptyString.

(** The one-character string holding a double quote. *)
Definition double_quote : string := String (Ascii.ascii_of_nat 34) EmptyString.

(** ** Helper functions *)

(** [get_hash_key_name(value)]: ['hash_' + sha1_hash(value)]. *)
Definition get_hash_key_name (sha1_hash : string → string) (value : string)
  : string :=
  String.append "hash_" (sha1_hash value).

(** A digest to run the definitions on concrete inputs: it is injective, as
    sha1 is on any data one meets in practice. *)
Definition plain_digest (value : string) : string := value.

(** ** Sorting, sampling and dictionaries *)

(** [sorted(l, key=...)] and [ORDER BY ... ASC]: a stable insertion sort,
    [le x y] deciding that [x]'s sort key is at most [y]'s. *)
Fixpoint insert_sorted {A} (le : A → A → bool) (x : A) (l : list A) : list A :=
  match l with
  | [] => [x]
  | y :: l' => if le x y then x :: y :: l' else y :: insert_sorted le x l'
  end.

Definition sorted_by {A} (le : A → A → bool) (l : list A) : list A :=
  foldr (insert_sorted le) [] l.

(** [random.sample(population, k)]: [k] elements at distinct positions.  The
    random source is the stream [rnd]: each draw takes the next number,
    reduced modulo the number of elements still to choose from. *)
Fixpoint sample {A} (rnd : list nat) (population : list A) (k : nat) : list A :=
  match k with
  | O => []
  | S k' =>
      let i := (default 0 (head rnd) mod length population)%nat in
      match population !! i with
      | Some x => x :: sample (tail rnd) (delete i population) k'
      | None => []
      end
  end.

(** [dict(pairs)]: a later pair overrides an earlier one with the same key. *)
Definition dict_of_pairs {V} (pairs : list (string * V)) : gmap string V :=
  list_to_map (reverse pairs).

(** The keys of a dictionary in its iteration order. *)
Definition dict_keys {V} (d : gmap string V) : list string :=
  (map_to_list d).*1.

(** [str(key)] of a datastore key [Key.from_path(kind, name)]. *)
Definition key_str (kind name : string) : string :=
  String.append kind (String.append "/" name).

(** ** Subscription *)

Module Subscription.

Inductive state := STATE_NOT_VERIFIED | STATE_VERIFIED | STATE_TO_DELETE.

#[export] Instance state_eq_dec : EqDecision state.
Proof. solve_decision. Defined.

Record t := mk {
  key_name : string;
  callback : string;
  callback_hash : string;
  topic : string;
  topic_hash : string;
  created_time : Z;        (* auto_now_add *)
  last_modified : Z;       (* auto_now: written at every put() *)
  expiration_time : Z;
  eta : Z;                 (* auto_now_add *)
  confirm_failures : Z;    (* default 0 *)
  verify_token : option string;
  subscription_state : state   (* default STATE_NOT_VERIFIED *)
}.

Definition set_last_modified (v : Z) (s : t) : t :=
  mk (key_name s) (callback s) (callback_hash s) (topic s) (topic_hash s)
     (created_time s) v (expiration_time s) (eta s) (confirm_failures s)
     (verify_token s) (subscription_state s).

Definition set_eta (v : Z) (s : t) : t :=
  mk (key_name s) (callback s) (callback_hash s) (topic s) (topic_hash s)
     (created_time s) (last_modified s) (expiration_time s) v
     (confirm_failures s) (verify_token s) (subscription_state s).

Definition set_confirm_failures (v : Z) (s : t) : t :=
  mk (key_name s) (callback s) (callback_hash s) (topic s) (topic_hash s)
     (created_time s) (last_modified s) (expiration_time s) (eta s) v
     (verify_token s) (subscription_state s).

Definition set_verify_token (v : option string) (s : t) : t :=
  mk (key_name s) (callback s) (callback_hash s) (topic s) (topic_hash s)
     (created_time s) (last_modified s) (expiration_time s) (eta s)
     (confirm_failures s) v (subscription_state s).

Definition set_subscription_state (v : state) (s : t) : t :=
  mk (key_name s) (callback s) (callback_hash s) (topic s) (topic_hash s)
     (created_time s) (last_modified s) (expiration_time s) (eta s)
     (confirm_failures s) (verify_token s) v.

(** [sub.put()]: the entity is written under its key name, [last_modified]
    taking the time of the write. *)
Definition put (clock : Z) (s : t) (ds : gmap string t) : gmap string t :=
  <[key_name s := set_last_modified clock s]> ds.

Section WithDigest.
Context (sha1_hash : string → string).

(** [create_key_name(callback, topic)]: the hash key name of
    ['%s\n%s' % (callback, topic)]. *)
Definition create_key_name (callback topic : string) : string :=
  get_hash_key_name sha1_hash
    (String.append callback (String.append newline topic)).

(** The constructor call [cls(key_name=..., callback=..., ...)] shared by
    [insert] and [request_insert]; the properties left out take their
    defaults. *)
Definition new (clock : Z) (callback topic : string)
           (verify_token : option string) : t :=
  mk (create_key_name callback topic) callback (sha1_hash callback)
     topic (sha1_hash topic) clock clock (clock + EXPIRATION_DELTA) clock
     0 verify_token STATE_NOT_VERIFIED.

(** [Subscription.insert]: the transaction body applied to the store. *)
Definition insert (clock : Z) (callback topic : string)
           (ds : gmap string t) : bool * gmap string t :=
  match ds !! create_key_name callback topic with
  | None =>
      (true,
       put clock
         (set_subscription_state STATE_VERIFIED
            (new clock callback topic None)) ds)
  | Some sub =>
      (false, put clock (set_subscription_state STATE_VERIFIED sub) ds)
  end.

(** [Subscription.request_insert]. *)
Definition request_insert (clock : Z) (callback topic verify_token : string)
           (ds : gmap string t) : bool * gmap string t :=
  match ds !! create_key_name callback topic with
  | None => (true, put clock (new clock callback topic (Some verify_token)) ds)
  | Some _ => (false, ds)
  end.

(** [Subscription.remove]. *)
Definition remove (callback topic : string) (ds : gmap string t)
  : bool * gmap string t :=
  match ds !! create_key_name callback topic with
  | Some _ => (true, delete (create_key_name callback topic) ds)
  | None => (false, ds)
  end.

(** [Subscription.request_remove]. *)
Definition request_remove (clock : Z) (callback topic verify_token : string)
           (ds : gmap string t) : bool * gmap string t :=
  match ds !! create_key_name callback topic with
  | Some sub =>
      match subscription_state sub with
      | STATE_TO_DELETE => (false, ds)
      | _ =>
          (true,
           put clock
             (set_verify_token (Some verify_token)
                (set_subscription_state STATE_TO_DELETE sub)) ds)
      end
  | None => (false, ds)
  end.

(** [Subscription.has_subscribers(topic)]. *)
Definition has_subscribers (topic : string) (ds : gmap string t) : bool :=
  match filter (λ s, topic_hash s = sha1_hash topic
                     ∧ subscription_state s = STATE_VERIFIED)
               (map_to_list ds).*2 with
  | [] => false
  | _ :: _ => true
  end.

(** [Subscription.get_subscribers(topic, count, starting_at_callback)]:
    the verified subscriptions of the topic, from the callback hash of
    [starting_at_callback] on when that is not empty, by callback hash. *)
Definition get_subscribers (topic : string) (count : nat)
           (starting_at_callback : string) (ds : gmap string t) : list t :=
  let matches s :=
    topic_hash s = sha1_hash topic
    ∧ subscription_state s = STATE_VERIFIED
    ∧ (starting_at_callback = EmptyString
       ∨ String.leb (sha1_hash starting_at_callback) (callback_hash s)
         = true) in
  take count
    (sorted_by (λ a b, String.leb (callback_hash a) (callback_hash b))
       (filter matches (map_to_list ds).*2)).

End WithDigest.

(** [confirm_failed(self, max_failures, retry_period, now)]: the store
    after the call.  [clock] is the time of the write, [now] the value the
    injected [now()] returns. *)
Definition confirm_failed (clock max_failures retry_period now : Z)
           (self : t) (ds : gmap string t) : gmap string t :=
  if (max_failures <=? confirm_failures self)%Z then
    delete (key_name self) ds
  else
    let retry_delay := (retry_period * 2 ^ confirm_failures self)%Z in
    let self := set_eta (now + retry_delay)%Z self in
    let self := set_confirm_failures (confirm_failures self + 1)%Z self in
    put clock self ds.

End Subscription.

(** ** Memcache *)

Module memcache.

Inductive call :=
| AddMulti (mapping : gmap string string) (time : Z)
| DeleteMulti (keys : list string)
| Delete (key : string).

(** [memcache.add_multi(mapping, time)]: sets the keys that are not there
    yet and returns the keys that it did not set. *)
Definition add_multi (mapping : gmap string string) (mc : gmap string string)
  : list string * gmap string string :=
  (filter (λ k, is_Some (mc !! k)) (dict_keys mapping), mc ∪ mapping).

(** [memcache.delete_multi(keys)]. *)
Definition delete_multi (keys : list string) (mc : gmap string string)
  : bool * gmap string string :=
  (true, foldr delete mc keys).

End memcache.

(** ** query_and_own *)

(** What [query_and_own] returns: [None], one instance, or a list. *)
Inductive work_result (Model : Type) :=
| RNone
| ROne (w : Model)
| RList (ws : list Model).
Arguments RNone {Model}.
Arguments ROne {Model} w.
Arguments RList {Model} ws.

Section QueryAndOwn.
Context {Model : Type}.

(** The datastore of the model class, memcache, and the memcache calls
    made so far (latest first). *)
Record World := mkWorld {
  datastore : gmap string Model;
  cache : gmap string string;
  cache_calls : list memcache.call
}.

(** [key w] is [str(w.key())]; [gql] is the query: the matching entities of
    the store in priority order, of which [fetch(n)] takes the first [n]. *)
Context (key : Model → string) (gql : gmap string Model → list Model).

Definition work_to_do (work_count sample_ratio : nat) (w : World)
  : list Model :=
  let sample_size := (work_count * sample_ratio)%nat in
  take sample_size (gql (datastore w)).

Definition work_map (work_count sample_ratio lock_ratio : nat)
           (rnd : list nat) (w : World) : gmap string Model :=
  let todo := work_to_do work_count sample_ratio w in
  let possible_work :=
    sample rnd todo (length todo `min` (lock_ratio * work_count))%nat in
  dict_of_pairs ((λ x, (key x, x)) <$> possible_work).

Definition try_lock_map (work_count sample_ratio lock_ratio : nat)
           (rnd : list nat) (w : World) : gmap string string :=
  (λ _, "owned") <$> work_map work_count sample_ratio lock_ratio rnd w.

Definition not_set_keys (work_count sample_ratio lock_ratio : nat)
           (rnd : list nat) (w : World) : gset string :=
  list_to_set
    (memcache.add_multi
       (try_lock_map work_count sample_ratio lock_ratio rnd w) (cache w)).1.

Definition query_and_own (lease_period : Z)
           (work_count sample_ratio lock_ratio : nat)
           (rnd : list nat) (w : World) : work_result Model * World :=
  match work_to_do work_count sample_ratio w with
  | [] => (if (work_count =? 1)%nat then RNone else RList [], w)
  | _ :: _ =>
      let work_map := work_map work_count sample_ratio lock_ratio rnd w in
      let try_lock_map :=
        try_lock_map work_count sample_ratio lock_ratio rnd w in
      let mc1 := (memcache.add_multi try_lock_map (cache w)).2 in
      let calls1 := memcache.AddMulti try_lock_map lease_period
                      :: cache_calls w in
      let not_set_keys :=
        not_set_keys work_count sample_ratio lock_ratio rnd w in
      let locked_keys :=
        filter (λ k, k ∉ not_set_keys) (dict_keys work_map) in
      let reset_keys := drop work_count locked_keys in
      let '(mc2, calls2) :=
        match reset_keys with
        | [] => (mc1, calls1)
        | _ :: _ =>
            ((memcache.delete_multi reset_keys mc1).2,
             memcache.DeleteMulti reset_keys :: calls1)
        end in
      let work := omap (λ k, work_map !! k) (take work_count locked_keys) in
      let w' := mkWorld (datastore w) mc2 calls2 in
      if (work_count =? 1)%nat then
        match work with
        | x :: _ => (ROne x, w')
        | [] => (RNone, w')
        end
      else (RList work, w')
  end.

End QueryAndOwn.
Arguments World Model : clear implicits.

(** ** FeedToFetch *)

Module FeedToFetch.

Record t := mk {
  key_name : string;
  topic : string;
  eta : Z;                  (* auto_now_add *)
  fetching_failures : Z;    (* default 0 *)
  totally_failed : bool     (* default False *)
}.

Definition key (f : t) : string := key_str "FeedToFetch" (key_name f).

Definition put (f : t) (ds : gmap string t) : gmap string t :=
  <[key_name f := f]> ds.

(** [FeedToFetch.insert(topic_list)]: a fresh entity per topic, written over
    whatever the store has under the topic's key. *)
Definition insert (sha1_hash : string → string) (clock : Z)
           (topic_list : list string) (ds : gmap string t) : gmap string t :=
  foldr (λ topic ds,
           put (mk (get_hash_key_name sha1_hash topic) topic clock 0 false) ds)
        ds topic_list.

(** [fetch_failed(self, max_failures, retry_period, now)]: the instance
    after the call and the store after its [put()]. *)
Definition fetch_failed (max_failures retry_period now : Z) (self : t)
           (ds : gmap string t) : t * gmap string t :=
  if (max_failures <=? fetching_failures self)%Z then
    let self := mk (key_name self) (topic self) (eta self)
                   (fetching_failures self) true in
    (self, put self ds)
  else
    let retry_delay := (retry_period * 2 ^ fetching_failures self)%Z in
    let self := mk (key_name self) (topic self) (now + retry_delay)%Z
                   (fetching_failures self) (totally_failed self) in
    let self := mk (key_name self) (topic self) (eta self)
                   (fetching_failures self + 1)%Z (totally_failed self) in
    (self, put self ds).

(** The query of [get_work]:
    [WHERE eta <= :now AND totally_failed = False ORDER BY eta ASC]. *)
Definition ready (now : Z) (f : t) : bool :=
  (eta f <=? now)%Z && negb (totally_failed f).

Definition work_query (now : Z) (ds : gmap string t) : list t :=
  sorted_by (λ a b, (eta a <=? eta b)%Z)
    (filter (λ f, ready now f = true) (map_to_list ds).*2).

(** [FeedToFetch.get_work(now)]. *)
Definition get_work (now : Z) (rnd : list nat) (w : World t)
  : work_result t * World t :=
  query_and_own key (work_query now) LEASE_PERIOD_SECONDS 1 20 4 rnd w.

(** Consecutive failed fetches of the feed stored under [name], one per
    element of [nows] (the time of each failure), with the default cap and
    retry period.  Each one works on the entity as the store has it. *)
Fixpoint fail_repeatedly (nows : list Z) (name : string)
         (ds : gmap string t) : gmap string t :=
  match nows with
  | [] => ds
  | now :: nows' =>
      match ds !! name with
      | Some f =>
          fail_repeatedly nows' name
            (fetch_failed MAX_FEED_PULL_FAILURES FEED_PULL_RETRY_PERIOD
               now f ds).2
      | None => ds
      end
  end.

End FeedToFetch.


(** ** Strings: slices and [rfind] *)

(** [s[:n]]. *)
Fixpoint string_take (n : nat) (s : string) : string :=
  match n, s with
  | S n', String c s' => String c (string_take n' s')
  | _, _ => EmptyString
  end.

(** [s[n:]]. *)
Fixpoint string_drop (n : nat) (s : string) : string :=
  match n, s with
  | S n', String _ s' => string_drop n' s'
  | _, _ => s
  end.

(** [s.rfind(sub)]: the highest index at which [sub] starts in [s]; [None]
    stands for Python's [-1]. *)
Fixpoint rfind (s sub : string) : option nat :=
  match s with
  | EmptyString => if String.prefix sub EmptyString then Some O else None
  | String _ s' =>
      match rfind s' sub with
      | Some j => Some (S j)
      | None => if String.prefix sub s then Some O else None
      end
  end.

(** [sub] starts at index [i] of [s]. *)
Definition occurs_at (i : nat) (sub s : string) : Prop :=
  ∃ before after : string,
    s = String.append before (String.append sub after)
    ∧ String.length before = i.

(** ** FeedRecord *)

Module FeedRecord.
Section WithDigest.
Context (sha1_hash : string → string).

Definition create_key_name (topic : string) : string :=
  get_hash_key_name sha1_hash topic.

End WithDigest.
End FeedRecord.

(** ** FeedEntryRecord *)

Module FeedEntryRecord.

Record t := mk {
  key_name : string;
  parent : string;                       (* key name of the FeedRecord *)
  entry_id : string;
  entry_id_hash : string;
  entry_content_hash : option string;
  update_time : Z                        (* auto_now *)
}.

(** All entry records, keyed by (parent key name, key name). *)
Abbreviation store := (gmap (string * string) t).

Section WithDigest.
Context (sha1_hash : string → string).

(** [create_key(topic, entry_id)]. *)
Definition create_key (topic entry_id : string) : string * string :=
  (FeedRecord.create_key_name sha1_hash topic,
   get_hash_key_name sha1_hash entry_id).

(** [get_entries_for_topic(topic, entry_id_list)]: a bulk get, the missing
    ones filtered out. *)
Definition get_entries_for_topic (topic : string) (entry_id_list : list string)
           (ds : store) : list t :=
  omap (λ entry_id, ds !! create_key topic entry_id) entry_id_list.

(** [create_entry_for_topic(topic, entry_id, content_hash)]. *)
Definition create_entry_for_topic (clock : Z) (topic entry_id : string)
           (content_hash : string) : t :=
  let key := create_key topic entry_id in
  mk key.2 key.1 entry_id (sha1_hash entry_id) (Some content_hash) clock.

(** [db.put(entities)] for entry records. *)
Definition put_all (entities : list t) (ds : store) : store :=
  foldl (λ ds e, <[(parent e, key_name e) := e]> ds) ds entities.

End WithDigest.
End FeedEntryRecord.

(** ** find_feed_updates *)

Section FindFeedUpdates.
Context (sha1_hash : string → string).

(** One round of the loop over [entries_map.iteritems()]: [acc] holds
    [entities_to_save] and [entry_payloads]. *)
Definition find_feed_updates_step (clock : Z) (topic : string)
           (existing_dict : gmap string (option string))
           (acc : list FeedEntryRecord.t * list string)
           (item : string * string)
  : list FeedEntryRecord.t * list string :=
  let '(entry_id, new_content) := item in
  let new_content_hash := sha1_hash new_content in
  let append_entry :=
    (acc.1 ++ [FeedEntryRecord.create_entry_for_topic sha1_hash clock topic
                 entry_id new_content_hash],
     acc.2 ++ [new_content]) in
  match existing_dict !! entry_id with
  | Some old_content_hash =>
      if decide (old_content_hash = Some new_content_hash) then acc
      else append_entry
  | None => append_entry
  end.

(** [find_feed_updates(topic, format, feed_content, filter_feed)].
    [filter_feed] is the feed parser, [None] when it raises; it returns the
    header/footer and the dictionary from entry id to the entry's XML.  The
    result is [(header_footer, entities_to_save, entry_payloads)]. *)
Definition find_feed_updates
           (filter_feed : string → string → option (string * gmap string string))
           (clock : Z) (topic format feed_content : string)
           (ds : FeedEntryRecord.store)
  : option (string * list FeedEntryRecord.t * list string) :=
  match filter_feed feed_content format with
  | None => None
  | Some (header_footer, entries_map) =>
      let existing_entries :=
        FeedEntryRecord.get_entries_for_topic sha1_hash topic
          (dict_keys entries_map) ds in
      let existing_dict :=
        dict_of_pairs
          ((λ e, (FeedEntryRecord.entry_id e,
                  FeedEntryRecord.entry_content_hash e))
             <$> existing_entries) in
      let result :=
        foldl (find_feed_updates_step clock topic existing_dict) ([], [])
              (map_to_list entries_map) in
      Some (header_footer, result.1, result.2)
  end.

(** The diff rule in the specification's words, to compare
    [find_feed_updates] with: an entry (id and XML) counts as an update when
    the store has no FeedEntryRecord under the key of (topic, entry id), or
    has one whose stored content hash differs from the hash of the XML. *)
Definition entry_is_update (topic : string) (ds : FeedEntryRecord.store)
           (item : string * string) : Prop :=
  match ds !! FeedEntryRecord.create_key sha1_hash topic item.1 with
  | None => True
  | Some r =>
      FeedEntryRecord.entry_content_hash r ≠ Some (sha1_hash item.2)
  end.

#[export] Instance entry_is_update_dec topic ds item :
  Decision (entry_is_update topic ds item).
Proof. unfold entry_is_update. destruct (ds !! _); apply _. Defined.

End FindFeedUpdates.

(** ** EventToDeliver *)

Module EventToDeliver.

Inductive mode := NORMAL | RETRY.

(** An event; its datastore key is not part of the value (the store assigns
    it at the first [put()]).  [failed_callbacks] holds the key names of
    Subscription entities. *)
Record t := mk {
  parent : string;                       (* key name of the FeedRecord *)
  topic : string;
  topic_hash : string;
  payload : string;
  last_callback : string;                (* default '' *)
  failed_callbacks : list string;
  delivery_mode : mode;                  (* default NORMAL *)
  retry_attempts : Z;                    (* default 0 *)
  last_modified : Z;
  totally_failed : bool                  (* default False *)
}.

(** The XML declaration, version 1.0 and encoding utf-8, its attribute
    values in double quotes. *)
Definition xml_declaration : string :=
  String.concat double_quote ["<?xml version="; "1.0"; " encoding="; "utf-8"; "?>"].

Section WithDigest.
Context (sha1_hash : string → string).

(** [create_event_for_topic(topic, format, header_footer, entry_payloads,
    now)]; [None] when one of the two assertions fails. *)
Definition create_event_for_topic (topic format header_footer : string)
           (entry_payloads : list string) (now : Z) : option t :=
  match
    (if String.eqb format ATOM then Some "</feed>"
     else if String.eqb format RSS then Some "</channel>"
     else None)
  with
  | None => None
  | Some close_tag =>
      match rfind header_footer close_tag with
      | None => None
      | Some close_index =>
          let payload_list :=
            [xml_declaration; string_take close_index header_footer]
              ++ entry_payloads
              ++ [string_drop close_index header_footer] in
          Some (mk (FeedRecord.create_key_name sha1_hash topic) topic
                   (sha1_hash topic) (String.concat newline payload_list)
                   EmptyString [] NORMAL 0 now false)
      end
  end.

(** [get_next_subscribers(self, chunk_size)] over the Subscription store
    [subs]: [(more_subscribers, subscription_list)] and the instance after
    the call. *)
Definition get_next_subscribers (chunk_size : option nat) (self : t)
           (subs : gmap string Subscription.t)
  : bool * list Subscription.t * t :=
  let chunk_size := default EVENT_SUBSCRIBER_CHUNK_SIZE chunk_size in
  match delivery_mode self with
  | NORMAL =>
      let all_subscribers :=
        Subscription.get_subscribers sha1_hash (topic self) (chunk_size + 1)
          (last_callback self) subs in
      let last_callback' :=
        match last all_subscribers with
        | Some s => Subscription.callback s
        | None => EmptyString
        end in
      let more_subscribers := (chunk_size <? length all_subscribers)%nat in
      let subscription_list := take chunk_size all_subscribers in
      (more_subscribers, subscription_list,
       mk (parent self) (topic self) (topic_hash self) (payload self)
          last_callback' (failed_callbacks self) (delivery_mode self)
          (retry_attempts self) (last_modified self) (totally_failed self))
  | RETRY =>
      let next_chunk := take chunk_size (failed_callbacks self) in
      let more_subscribers :=
        (length next_chunk <? length (failed_callbacks self))%nat in
      let '(more_subscribers, next_chunk) :=
        if decide (last_callback self = EmptyString) then (more_subscribers, next_chunk)
        else
          let final_subscription_key :=
            Subscription.create_key_name sha1_hash (last_callback self)
              (topic self) in
          match list_find (λ k, k = final_subscription_key) next_chunk with
          | None => (more_subscribers, next_chunk)
          | Some (final_index, _) => (false, take final_index next_chunk)
          end in
      let subscription_list := omap (λ k, subs !! k) next_chunk in
      let last_callback' :=
        match subscription_list with
        | s :: _ =>
            if decide (last_callback self = EmptyString) then Subscription.callback s
            else last_callback self
        | [] => last_callback self
        end in
      (more_subscribers, subscription_list,
       mk (parent self) (topic self) (topic_hash self) (payload self)
          last_callback'
          (drop (length next_chunk) (failed_callbacks self))
          (delivery_mode self) (retry_attempts self) (last_modified self)
          (totally_failed self))
  end.

End WithDigest.

(** What [update] did to the entity. *)
Inductive outcome := Deleted | Put (self : t).

(** The instance as [update] has it after extending [failed_callbacks]. *)
Definition with_failures (now : Z) (more_failed_callbacks : list Subscription.t)
           (self : t) : t :=
  let more_failed_callbacks :=
    sorted_by (λ a b, String.leb (Subscription.callback_hash a)
                                 (Subscription.callback_hash b))
              more_failed_callbacks in
  mk (parent self) (topic self) (topic_hash self) (payload self)
     (last_callback self)
     (failed_callbacks self ++ (Subscription.key_name <$> more_failed_callbacks))
     (delivery_mode self) (retry_attempts self) now (totally_failed self).

(** The branch [elif not more_callbacks] of [update]. *)
Definition end_of_pass (max_failures retry_period : Z) (self : t) : t :=
  let retry_delay := (retry_period * 2 ^ retry_attempts self)%Z in
  let retry_attempts' := (retry_attempts self + 1)%Z in
  mk (parent self) (topic self) (topic_hash self) (payload self)
     EmptyString
     (failed_callbacks self)
     (match delivery_mode self with NORMAL => RETRY | m => m end)
     retry_attempts'
     (last_modified self + retry_delay)%Z
     (if (max_failures <? retry_attempts')%Z then true
      else totally_failed self).

(** [update(self, more_callbacks, more_failed_callbacks, now, max_failures,
    retry_period)] for the event stored under [key]: what became of the
    entity, and the world after the call. *)
Definition update (key : string) (self : t) (more_callbacks : bool)
           (more_failed_callbacks : list Subscription.t)
           (now max_failures retry_period : Z) (w : World t)
  : outcome * World t :=
  let self := with_failures now more_failed_callbacks self in
  match more_callbacks, failed_callbacks self with
  | false, [] =>
      (Deleted, mkWorld (delete key (datastore w)) (cache w) (cache_calls w))
  | _, _ =>
      let self :=
        if more_callbacks then self
        else end_of_pass max_failures retry_period self in
      (Put self,
       mkWorld (<[key := self]> (datastore w))
               (delete (key_str "EventToDeliver" key) (cache w))
               (memcache.Delete (key_str "EventToDeliver" key)
                  :: cache_calls w))
  end.

End EventToDeliver.

(** ** PollingMarker *)

Module PollingMarker.

Record t := mk {
  next_start : Z;
  current_key : option string
}.

(** [should_progress(self, period, now)]: the returned flag and the marker
    after the call.  [elif self.current_key] holds for a string that is
    neither [None] nor empty. *)
Definition should_progress (period now : Z) (self : t) : bool * t :=
  if (next_start self <? now)%Z then
    (true, mk (now + period)%Z (current_key self))
  else
    match current_key self with
    | Some (String _ _) => (true, self)
    | _ => (false, self)
    end.

End PollingMarker.


(** ** PollBootstrapHandler *)

Module PollBootstrapHandler.

(** The state the handler works on: the stored marker if there is one, the
    KnownFeed entities (key name to topic) and the FeedToFetch entities. *)
Record state := mkState {
  marker : option PollingMarker.t;
  known_feeds : gmap string string;
  feeds_to_fetch : gmap string FeedToFetch.t
}.

(** [PollingMarker.get(now)]: the stored marker, or a new one that is due. *)
Definition the_mark (now : Z) (st : state) : PollingMarker.t :=
  default (PollingMarker.mk (now - 60)%Z None) (marker st).

(** [query.fetch(BOOSTRAP_FEED_CHUNK_SIZE)]: the known feeds in key order,
    those after [current_key] when it is not [None]. *)
Definition fetch_known_feeds (current_key : option string)
           (known : gmap string string) : list (string * string) :=
  let after (kv : string * string) : bool :=
    match current_key with
    | Some k => String.ltb k kv.1
    | None => true
    end in
  take BOOSTRAP_FEED_CHUNK_SIZE
    (sorted_by (λ a b, String.leb a.1 b.1)
       (filter (λ kv, after kv = true) (map_to_list known))).

(** [PollBootstrapHandler.get]; [clock] is the time of the writes and of
    [now()]. *)
Definition get (sha1_hash : string → string) (clock : Z) (st : state) : state :=
  let '(progress, the_mark) :=
    PollingMarker.should_progress POLLING_BOOTSTRAP_PERIOD clock
      (the_mark clock st) in
  if progress then
    let known := fetch_known_feeds (PollingMarker.current_key the_mark)
                   (known_feeds st) in
    let the_mark :=
      PollingMarker.mk (PollingMarker.next_start the_mark)
        (fst <$> last known) in
    mkState (Some the_mark) (known_feeds st)
      (FeedToFetch.insert sha1_hash clock (known.*2) (feeds_to_fetch st))
  else st.

End PollBootstrapHandler.

(** ** Work retrieval for subscriptions *)

(** The instances that a result of [query_and_own] holds. *)
Definition returned {Model} (r : work_result Model) : list Model :=
  match r with
  | RNone => []
  | ROne x => [x]
  | RList ws => ws
  end.

(** [str(sub.key())]. *)
Definition Subscription_key (s : Subscription.t) : string :=
  key_str "Subscription" (Subscription.key_name s).

(** The query of [Subscription.get_confirm_work]:
    [WHERE eta <= :now AND subscription_state IN :valid_states
     ORDER BY eta ASC], the valid states being [STATE_NOT_VERIFIED] and
    [STATE_TO_DELETE]. *)
Definition Subscription_confirm_ready (now : Z) (s : Subscription.t) : bool :=
  (Subscription.eta s <=? now)%Z
  && match Subscription.subscription_state s with
     | Subscription.STATE_NOT_VERIFIED | Subscription.STATE_TO_DELETE => true
     | Subscription.STATE_VERIFIED => false
     end.

Definition Subscription_confirm_query (now : Z)
           (ds : gmap string Subscription.t) : list Subscription.t :=
  sorted_by (λ a b, (Subscription.eta a <=? Subscription.eta b)%Z)
    (filter (λ s, Subscription_confirm_ready now s = true)
            (map_to_list ds).*2).

(** [Subscription.get_confirm_work(now)]. *)
Definition Subscription_get_confirm_work (now : Z) (rnd : list nat)
           (w : World Subscription.t)
  : work_result Subscription.t * World Subscription.t :=
  query_and_own Subscription_key (Subscription_confirm_query now)
    LEASE_PERIOD_SECONDS 1 20 4 rnd w.

(** Consecutive failed confirmations of the subscription stored under
    [name], one per element of [nows] (the time of each failure, which is
    also the time of the write), with the default cap and retry period.
    Each one works on the entity as the store has it. *)
Fixpoint confirm_fail_repeatedly (nows : list Z) (name : string)
         (ds : gmap string Subscription.t) : gmap string Subscription.t :=
  match nows with
  | [] => ds
  | now :: nows' =>
      match ds !! name with
      | Some s =>
          confirm_fail_repeatedly nows' name
            (Subscription.confirm_failed now MAX_SUBSCRIPTION_CONFIRM_FAILURES
               SUBSCRIPTION_RETRY_PERIOD now s ds)
      | None => ds
      end
  end.

(** Every entity of the store sits under its own key name, as in the
    datastore, where an entity's key is part of the entity. *)
Definition well_keyed (ds : gmap string Subscription.t) : Prop :=
  ∀ k s, ds !! k = Some s → Subscription.key_name s = k.

(** ** Work retrieval for events, and the push worker *)

(** The condition of the query of [EventToDeliver.get_work]:
    [last_modified <= :now AND totally_failed = False]. *)
Definition EventToDeliver_ready (now : Z) (e : EventToDeliver.t) : bool :=
  (EventToDeliver.last_modified e <=? now)%Z
  && negb (EventToDeliver.totally_failed e).

(** The events of the store as entities, each with its key. *)
Definition keyed_events (ds : gmap string EventToDeliver.t)
  : gmap string (string * EventToDeliver.t) :=
  map_imap (λ k e, Some (k, e)) ds.

(** The query of [EventToDeliver.get_work], [ORDER BY last_modified ASC]. *)
Definition EventToDeliver_work_query (now : Z)
           (ds : gmap string (string * EventToDeliver.t))
  : list (string * EventToDeliver.t) :=
  sorted_by (λ a b, (EventToDeliver.last_modified a.2
                     <=? EventToDeliver.last_modified b.2)%Z)
    (filter (λ ke, EventToDeliver_ready now ke.2 = true) (map_to_list ds).*2).

(** [EventToDeliver.get_work(now)]: the event claimed comes with its key. *)
Definition EventToDeliver_get_work (now : Z) (rnd : list nat)
           (w : World EventToDeliver.t)
  : work_result (string * EventToDeliver.t) * World EventToDeliver.t :=
  let r :=
    query_and_own (λ ke, key_str "EventToDeliver" ke.1)
      (EventToDeliver_work_query now) LEASE_PERIOD_SECONDS 1 20 4 rnd
      (mkWorld (keyed_events (datastore w)) (cache w) (cache_calls w)) in
  (r.1, mkWorld (datastore w) (cache r.2) (cache_calls r.2)).

Module PushEventHandler.

(** The outcome of one POST: [None] when it raised or had not completed at
    the deadline, the status code otherwise.  A delivery counts when the
    status is 200 or 204. *)
Definition delivered (result : option Z) : bool :=
  match result with
  | Some status_code => (status_code =? 200)%Z || (status_code =? 204)%Z
  | None => false
  end.

(** The subscriptions still in [failed_callbacks] when the wait is over:
    those whose POST, the [i]-th for the [i]-th subscription, did not
    count. *)
Definition failed_callbacks (subscription_list : list Subscription.t)
           (results : nat → option Z) : list Subscription.t :=
  (filter (λ p, delivered p.2 = false)
          (imap (λ i sub, (sub, results i)) subscription_list)).*1.

(** The handler from the point where [work] is claimed: the next
    subscribers, the POSTs, and [work.update] at the time [update_time]. *)
Definition deliver (sha1_hash : string → string) (update_time : Z)
           (results : nat → option Z) (subs : gmap string Subscription.t)
           (key : string) (work : EventToDeliver.t)
           (w : World EventToDeliver.t)
  : EventToDeliver.outcome * World EventToDeliver.t :=
  let '(more_subscribers, subscription_list, work) :=
    EventToDeliver.get_next_subscribers sha1_hash None work subs in
  EventToDeliver.update key work more_subscribers
    (failed_callbacks subscription_list results)
    update_time MAX_DELIVERY_FAILURES DELIVERY_RETRY_PERIOD w.

(** [PushEventHandler.get]: [now] is the handler's clock for [get_work]. *)
Definition get (sha1_hash : string → string) (now update_time : Z)
           (rnd : list nat) (results : nat → option Z)
           (subs : gmap string Subscription.t) (w : World EventToDeliver.t)
  : World EventToDeliver.t :=
  match EventToDeliver_get_work now rnd w with
  | (ROne (key, work), w) =>
      (deliver sha1_hash update_time results subs key work w).2
  | (_, w) => w
  end.

End PushEventHandler.

(** ** URL validation *)

(** What [urlparse.urlparse] gives of a URL, as far as [is_valid_url] reads
    it. *)
Record url_parts := mk_url_parts {
  scheme : string;
  netloc : string;
  fragment : string
}.

(** [(netloc.split(':', 1) + [''])[:2][1]]: what follows the first colon, the
    empty string when there is no colon. *)
Fixpoint after_first_colon (s : string) : string :=
  match s with
  | EmptyString => EmptyString
  | String c s' =>
      if Ascii.eqb c (Ascii.ascii_of_nat 58) then s' else after_first_colon s'
  end.

(** [is_valid_url(url)]; [urlparse] is the library function and [is_dev_env]
    the value of [is_dev_env()]. *)
Definition is_valid_url (urlparse : string → url_parts) (is_dev_env : bool)
           (url : string) : bool :=
  let split := urlparse url in
  if negb (String.eqb (scheme split) "http"
           || String.eqb (scheme split) "https") then false
  else
    let port := after_first_colon (netloc split) in
    if negb (String.eqb port EmptyString) && negb is_dev_env
       && negb (String.eqb port "80" || String.eqb port "443") then false
    else if negb (String.eqb (fragment split) EmptyString) then false
    else true.

(** ** KnownFeed *)

Module KnownFeed.
Section WithDigest.
Context (sha1_hash : string → string).

(** The store of known feeds maps a key name to the entity's topic.
    [KnownFeed.create(topic)] followed by [db.put]. *)
Definition put_new (topic : string) (ds : gmap string string)
  : gmap string string :=
  <[get_hash_key_name sha1_hash topic := topic]> ds.

(** [KnownFeed.check_exists(topics)]: the topics of the entities found under
    the keys of [set(topics)], in the order in which the set is traversed
    (here the order of first occurrence). *)
Definition check_exists (topics : list string) (ds : gmap string string)
  : list string :=
  omap (λ url, ds !! get_hash_key_name sha1_hash url) (remove_dups topics).

End WithDigest.
End KnownFeed.

(** ** The hub's state and its handlers *)

(** The entity kinds the ingress handlers and the confirm worker work on, and
    memcache. *)
Record Hub := mkHub {
  subscriptions : gmap string Subscription.t;
  known_feeds : gmap string string;
  feeds_to_fetch : gmap string FeedToFetch.t;
  lock_cache : gmap string string;
  lock_calls : list memcache.call
}.

Definition with_subscriptions (ds : gmap string Subscription.t) (hub : Hub)
  : Hub :=
  mkHub ds (known_feeds hub) (feeds_to_fetch hub) (lock_cache hub)
        (lock_calls hub).

Definition with_known_feeds (ds : gmap string string) (hub : Hub) : Hub :=
  mkHub (subscriptions hub) ds (feeds_to_fetch hub) (lock_cache hub)
        (lock_calls hub).

Definition with_feeds_to_fetch (ds : gmap string FeedToFetch.t) (hub : Hub)
  : Hub :=
  mkHub (subscriptions hub) (known_feeds hub) ds (lock_cache hub)
        (lock_calls hub).

Section Handlers.
Context (sha1_hash : string → string).
(** [str.lower], [urlparse.urlparse] and [is_dev_env()]. *)
Context (lower : string → string) (urlparse : string → url_parts)
        (is_dev_env : bool).

(** [ConfirmSubscription(mode, topic, callback, verify_token)].  The
    verification GET is the environment's: [response] is [None] when
    [urlfetch.fetch] raised and the status code otherwise.  [clock] is the
    time of the writes. *)
Definition ConfirmSubscription (clock : Z) (response : option Z)
           (mode topic callback : string) (verify_token : option string)
           (hub : Hub) : bool * Hub :=
  match response with
  | None => (false, hub)
  | Some status_code =>
      if (status_code =? 204)%Z then
        if String.eqb mode "subscribe" then
          let hub :=
            with_subscriptions
              (Subscription.insert sha1_hash clock callback topic
                 (subscriptions hub)).2 hub in
          (true,
           with_known_feeds
             (KnownFeed.put_new sha1_hash topic (known_feeds hub)) hub)
        else
          (true,
           with_subscriptions
             (Subscription.remove sha1_hash callback topic
                (subscriptions hub)).2 hub)
      else (false, hub)
  end.

(** The [error_message] of [SubscribeHandler.post]: each failed check
    overwrites the message of the ones before. *)
Definition subscribe_error_message
           (callback topic verify_type verify_token mode : string)
  : option string :=
  let valid := is_valid_url urlparse is_dev_env in
  let error_message := None in
  let error_message :=
    if String.eqb callback EmptyString || negb (valid callback)
    then Some "Invalid parameter: hub.callback" else error_message in
  let error_message :=
    if String.eqb topic EmptyString || negb (valid topic)
    then Some "Invalid parameter: hub.topic" else error_message in
  let error_message :=
    if negb (bool_decide
               (verify_type ∈ ["sync"; "async"; "sync,async"; "async,sync"]))
    then Some (String.append "Invalid value for hub.verify: " verify_type)
    else error_message in
  let error_message :=
    if String.eqb verify_token EmptyString
    then Some "Invalid parameter: hub.verify_token" else error_message in
  let error_message :=
    if negb (bool_decide (mode ∈ ["subscribe"; "unsubscribe"]))
    then Some (String.append "Invalid value for hub.mode: " mode)
    else error_message in
  error_message.

(** [SubscribeHandler.post]: the status of the response and the hub after
    it.  The arguments are the request's [hub.callback], [hub.topic],
    [hub.verify] (['sync'] when absent), [hub.verify_token] and [hub.mode]
    (the empty string when absent). *)
Definition SubscribeHandler_post (clock : Z) (response : option Z)
           (callback topic verify verify_token mode : string) (hub : Hub)
  : Z * Hub :=
  let verify_type := lower verify in
  let mode := lower mode in
  match subscribe_error_message callback topic verify_type verify_token
          mode with
  | Some _ => (400%Z, hub)
  | None =>
      let sub :=
        subscriptions hub
          !! Subscription.create_key_name sha1_hash callback topic in
      if String.eqb mode "unsubscribe" && bool_decide (sub = None) then
        (204%Z, hub)
      else if String.prefix "sync" verify_type then
        let r := ConfirmSubscription clock response mode topic callback
                   (Some verify_token) hub in
        if r.1 then (204%Z, r.2) else (409%Z, r.2)
      else if String.eqb mode "subscribe" then
        (202%Z,
         with_subscriptions
           (Subscription.request_insert sha1_hash clock callback topic
              verify_token (subscriptions hub)).2 hub)
      else
        (202%Z,
         with_subscriptions
           (Subscription.request_remove sha1_hash clock callback topic
              verify_token (subscriptions hub)).2 hub)
  end.

(** [SubscriptionConfirmHandler.get]: the status of the response (200 when
    the handler sets none) and the hub after it.  [now] is the time of
    [get_confirm_work] and of [confirm_failed], [clock] that of the writes. *)
Definition SubscriptionConfirmHandler_get (clock now : Z) (rnd : list nat)
           (response : option Z) (hub : Hub) : Z * Hub :=
  let claimed :=
    Subscription_get_confirm_work now rnd
      (mkWorld (subscriptions hub) (lock_cache hub) (lock_calls hub)) in
  let hub :=
    mkHub (subscriptions hub) (known_feeds hub) (feeds_to_fetch hub)
          (cache claimed.2) (cache_calls claimed.2) in
  match claimed.1 with
  | ROne sub =>
      let mode :=
        match Subscription.subscription_state sub with
        | Subscription.STATE_NOT_VERIFIED => "subscribe"
        | _ => "unsubscribe"
        end in
      let r := ConfirmSubscription clock response mode
                 (Subscription.topic sub) (Subscription.callback sub)
                 (Subscription.verify_token sub) hub in
      if r.1 then
        if String.eqb mode "subscribe" then
          (200%Z,
           with_subscriptions
             (Subscription.insert sha1_hash clock
                (Subscription.callback sub) (Subscription.topic sub)
                (subscriptions r.2)).2 r.2)
        else
          (200%Z,
           with_subscriptions
             (Subscription.remove sha1_hash
                (Subscription.callback sub) (Subscription.topic sub)
                (subscriptions r.2)).2 r.2)
      else
        (500%Z,
         with_subscriptions
           (Subscription.confirm_failed clock
              MAX_SUBSCRIPTION_CONFIRM_FAILURES SUBSCRIPTION_RETRY_PERIOD now
              sub (subscriptions r.2)) r.2)
  | _ => (200%Z, hub)
  end.

(** [PublishHandler.post]: [mode] is the request's [hub.mode] (the empty
    string when absent) and [urls] its [hub.url] values. *)
Definition PublishHandler_post (clock : Z) (mode : string)
           (urls : list string) (hub : Hub) : Z * Hub :=
  if negb (String.eqb (lower mode) "publish") then (400%Z, hub)
  else
    let urls := remove_dups urls in
    match urls with
    | [] => (400%Z, hub)
    | _ :: _ =>
        if forallb (is_valid_url urlparse is_dev_env) urls then
          let urls := KnownFeed.check_exists sha1_hash urls (known_feeds hub) in
          (204%Z,
           with_feeds_to_fetch
             (FeedToFetch.insert sha1_hash clock urls (feeds_to_fetch hub))
             hub)
        else (400%Z, hub)
    end.

(** [HubHandler.post]: the request goes to the handler of its mode. *)
Definition HubHandler_post (clock : Z) (response : option Z)
           (callback topic verify verify_token mode : string)
           (urls : list string) (hub : Hub) : Z * Hub :=
  let lowered := lower mode in
  if String.eqb lowered "publish" then
    PublishHandler_post clock mode urls hub
  else if bool_decide (lowered ∈ ["subscribe"; "unsubscribe"]) then
    SubscribeHandler_post clock response callback topic verify verify_token
      mode hub
  else (400%Z, hub).

End Handlers.

(** ** FeedRecord entities *)

Module FeedRecordEntity.

(** A FeedRecord; the store maps its key name to it. *)
Record t := mk {
  topic : string;
  header_footer : option string;
  last_updated : Z;                      (* auto_now *)
  content_type : option string;
  last_modified : option string;
  etag : option string
}.

(** [FeedRecord.get_or_create(topic)]: [get_or_insert] returns the stored
    entity, or stores and returns a new one.  The result is the entity and
    the store. *)
Definition get_or_create (sha1_hash : string → string) (clock : Z)
           (topic : string) (ds : gmap string t) : t * gmap string t :=
  match ds !! FeedRecord.create_key_name sha1_hash topic with
  | Some record => (record, ds)
  | None =>
      let record := mk topic None clock None None None in
      (record, <[FeedRecord.create_key_name sha1_hash topic := record]> ds)
  end.

(** [update(self, headers, header_footer)]: [headers] is the [get] of the
    response headers, [lower] is [str.lower]. *)
Definition update (lower : string → string) (headers : string → option string)
           (header_footer : option string) (self : t) : t :=
  mk (topic self)
     (match header_footer with
      | Some _ => header_footer
      | None => FeedRecordEntity.header_footer self
      end)
     (last_updated self)
     (Some (lower (default EmptyString (headers "Content-Type"))))
     (headers "Last-Modified")
     (headers "ETag").

(** A value that Python takes for true: neither [None] nor empty. *)
Definition truthy (value : option string) : bool :=
  match value with
  | Some (String _ _) => true
  | _ => false
  end.

(** [get_request_headers(self)]. *)
Definition get_request_headers (self : t) : gmap string string :=
  let headers : gmap string string := ∅ in
  let headers :=
    match last_modified self with
    | Some v => if truthy (Some v) then <["If-Modified-Since" := v]> headers
                else headers
    | None => headers
    end in
  match etag self with
  | Some v => if truthy (Some v) then <["If-None-Match" := v]> headers
              else headers
  | None => headers
  end.

End FeedRecordEntity.

(** ** The pull worker *)

(** The response of [urlfetch.fetch], as far as the pull worker reads it. *)
Record http_response := mk_http_response {
  status_code : Z;
  response_headers : string → option string;
  content : string
}.

(** The entity group of the feeds: feed records by key name, entry records,
    and events by key. *)
Record FeedStore := mkFeedStore {
  feed_records : gmap string FeedRecordEntity.t;
  entry_records : FeedEntryRecord.store;
  events : gmap string EventToDeliver.t
}.

Section PullFeedHandler.
Context (sha1_hash : string → string) (lower : string → string).
(** The feed parser, [feed_diff.filter]. *)
Context (filter_feed : string → string → option (string * gmap string string)).

(** The loop over [order]: the first format in which the content parses,
    with what [find_feed_updates] returns for it; [None] when every attempt
    failed. *)
Fixpoint parse_in_order (clock : Z) (topic content : string)
         (entries : FeedEntryRecord.store) (order : list string)
  : option (string * (string * list FeedEntryRecord.t * list string)) :=
  match order with
  | [] => None
  | format :: order' =>
      match find_feed_updates sha1_hash filter_feed clock topic format
              content entries with
      | Some found => Some (format, found)
      | None => parse_in_order clock topic content entries order'
      end
  end.

(** [work.fetch_failed()] on the hub. *)
Definition pull_failed (clock : Z) (work : FeedToFetch.t) (hub : Hub) : Hub :=
  with_feeds_to_fetch
    (FeedToFetch.fetch_failed MAX_FEED_PULL_FAILURES FEED_PULL_RETRY_PERIOD
       clock work (feeds_to_fetch hub)).2 hub.

(** [work.delete()] on the hub. *)
Definition pull_done (work : FeedToFetch.t) (hub : Hub) : Hub :=
  with_feeds_to_fetch
    (delete (FeedToFetch.key_name work) (feeds_to_fetch hub)) hub.

(** [PullFeedHandler.get] from the point where [work] is claimed.
    [response] is [None] when [urlfetch.fetch] raised; [new_event_key] is the
    key that the datastore gives the event; [clock] is the time of the writes
    and of every [now()]. *)
Definition pull_feed (clock : Z) (response : option http_response)
           (new_event_key : string) (work : FeedToFetch.t)
           (hub : Hub) (fs : FeedStore) : Hub * FeedStore :=
  let topic := FeedToFetch.topic work in
  if negb (Subscription.has_subscribers sha1_hash topic (subscriptions hub))
  then
    (with_known_feeds
       (delete (get_hash_key_name sha1_hash topic) (known_feeds hub))
       (pull_done work hub),
     fs)
  else
    let created :=
      FeedRecordEntity.get_or_create sha1_hash clock topic
        (feed_records fs) in
    let feed_record := created.1 in
    let fs := mkFeedStore created.2 (entry_records fs) (events fs) in
    match response with
    | None => (pull_failed clock work hub, fs)
    | Some response =>
        if negb ((status_code response =? 200)%Z
                 || (status_code response =? 304)%Z) then
          (pull_failed clock work hub, fs)
        else if (status_code response =? 304)%Z then
          (pull_done work hub, fs)
        else
          let order :=
            match rfind (default EmptyString
                           (FeedRecordEntity.content_type feed_record))
                        "rss" with
            | Some _ => [RSS; ATOM]
            | None => [ATOM; RSS]
            end in
          match parse_in_order clock topic (content response)
                  (entry_records fs) order with
          | None => (pull_failed clock work hub, fs)
          | Some (format, (header_footer, entities_to_save, entry_payloads)) =>
              let event :=
                match entities_to_save with
                | [] => Some None
                | _ :: _ =>
                    match EventToDeliver.create_event_for_topic sha1_hash
                            topic format header_footer entry_payloads
                            clock with
                    | Some event => Some (Some event)
                    | None => None
                    end
                end in
              match event with
              | None => (hub, fs)       (* the assertion failed *)
              | Some event =>
                  let feed_record :=
                    FeedRecordEntity.update lower (response_headers response)
                      (Some header_footer) feed_record in
                  (pull_done work hub,
                   mkFeedStore
                     (<[FeedRecord.create_key_name sha1_hash topic :=
                          FeedRecordEntity.mk
                            (FeedRecordEntity.topic feed_record)
                            (FeedRecordEntity.header_footer feed_record)
                            clock
                            (FeedRecordEntity.content_type feed_record)
                            (FeedRecordEntity.last_modified feed_record)
                            (FeedRecordEntity.etag feed_record)]>
                        (feed_records fs))
                     (FeedEntryRecord.put_all entities_to_save
                        (entry_records fs))
                     (match event with
                      | Some event => <[new_event_key := event]> (events fs)
                      | None => events fs
                      end))
              end
          end
    end.

(** [PullFeedHandler.get]. *)
Definition PullFeedHandler_get (clock now : Z) (rnd : list nat)
           (response : option http_response) (new_event_key : string)
           (hub : Hub) (fs : FeedStore) : Hub * FeedStore :=
  let claimed :=
    FeedToFetch.get_work now rnd
      (mkWorld (feeds_to_fetch hub) (lock_cache hub) (lock_calls hub)) in
  let hub :=
    mkHub (subscriptions hub) (known_feeds hub) (feeds_to_fetch hub)
          (cache claimed.2) (cache_calls claimed.2) in
  match claimed.1 with
  | ROne work => pull_feed clock response new_event_key work hub fs
  | _ => (hub, fs)
  end.

End PullFeedHandler.

(** * Properties *)

(** ** Sorting and sampling *)

Lemma insert_sorted_Permutation {A} (le : A → A → bool) x l :
  insert_sorted le x l ≡ₚ x :: l.
Proof.
  induction l as [|y l IH]; simpl; [done|].
  destruct (le x y); [done|].
  rewrite IH. apply Permutation_swap.
Qed.

Lemma sorted_by_Permutation {A} (le : A → A → bool) l :
  sorted_by le l ≡ₚ l.
Proof.
  induction l as [|x l IH]; simpl; [done|].
  rewrite insert_sorted_Permutation. by rewrite IH.
Qed.

Lemma elem_of_sorted_by {A} (le : A → A → bool) x l :
  x ∈ sorted_by le l ↔ x ∈ l.
Proof. by rewrite sorted_by_Permutation. Qed.

Lemma sample_subseteq {A} (rnd : list nat) (population : list A) k x :
  x ∈ sample rnd population k → x ∈ population.
Proof.
  revert rnd population.
  induction k as [|k IH]; intros rnd population; simpl.
  - by intros ?%elem_of_nil.
  - destruct (population !! _) as [y|] eqn:Hy; [|by intros ?%elem_of_nil].
    intros [->|Hin]%elem_of_cons.
    + by eapply list_elem_of_lookup_2.
    + apply IH in Hin. by eapply list_elem_of_delete_inv.
Qed.

Lemma sample_length {A} (rnd : list nat) (population : list A) k :
  (k ≤ length population)%nat → length (sample rnd population k) = k.
Proof.
  revert rnd population.
  induction k as [|k IH]; intros rnd population Hk; simpl; [done|].
  destruct population as [|p population]; [simpl in Hk; lia|].
  set (i := (default 0 (head rnd) mod length (p :: population))%nat).
  assert (i < length (p :: population))%nat as Hi
    by (apply Nat.mod_upper_bound; done).
  destruct (lookup_lt_is_Some_2 _ _ Hi) as [y Hy].
  rewrite Hy. simpl. f_equal. apply IH.
  rewrite length_delete; [|by eexists]. simpl in *. lia.
Qed.

(** ** Subscription *)

(** C7.  [Subscription.request_insert] on a (callback, topic) whose entity
    exists, in whatever state, returns [False] and leaves the store as it was,
    so no field of that entity changes; when no entity exists it returns
    [True] and stores a new one under the pair's key, in the state
    [STATE_NOT_VERIFIED] and with the given verify token. *)
Theorem request_insert_only_creates
        (sha1_hash : string → string) (clock : Z)
        (callback topic verify_token : string)
        (ds : gmap string Subscription.t) :
  let k := Subscription.create_key_name sha1_hash callback topic in
  let r := Subscription.request_insert sha1_hash clock callback topic
             verify_token ds in
  (is_Some (ds !! k) → r = (false, ds))
  ∧ (ds !! k = None →
     ∃ sub, r = (true, <[k := sub]> ds)
            ∧ Subscription.subscription_state sub
              = Subscription.STATE_NOT_VERIFIED
            ∧ Subscription.verify_token sub = Some verify_token
            ∧ Subscription.callback sub = callback
            ∧ Subscription.topic sub = topic
            ∧ Subscription.confirm_failures sub = 0%Z).
Proof.
  intros k r. subst r. unfold Subscription.request_insert. fold k. split.
  - intros [sub Hsub]. by rewrite Hsub.
  - intros Hnone. rewrite Hnone. eexists. split; [reflexivity|]. done.
Qed.

Lemma request_insert_only_creates_witness :
  let verified :=
    Subscription.set_subscription_state Subscription.STATE_VERIFIED
      (Subscription.new plain_digest 5 "http://s/cb" "http://p/feed" None) in
  let ds : gmap string Subscription.t :=
    {[ Subscription.key_name verified := verified ]} in
  Subscription.request_insert plain_digest 7 "http://s/cb" "http://p/feed"
    "tok1" ds = (false, ds)
  ∧ (Subscription.request_insert plain_digest 7 "http://s/cb" "http://p/feed"
       "tok1" ∅).1 = true.
Proof.
  intros verified ds. split.
  - apply (request_insert_only_creates plain_digest 7 "http://s/cb"
             "http://p/feed" "tok1" ds).
    exists verified. apply lookup_singleton_eq.
  - destruct (request_insert_only_creates plain_digest 7 "http://s/cb"
                "http://p/feed" "tok1" ∅) as [_ Hnew].
    destruct (Hnew (lookup_empty _)) as (sub & Heq & _).
    by rewrite Heq.
Defined.

(** C4 as stated fails: after the first failed confirmation the counter is 1
    and the delay is [retry_period * 2^0], not [retry_period * 2^1]. *)
Lemma confirm_failed_exponent_is_not_incremented_counter :
  let sub := Subscription.new plain_digest 0 "http://s/cb" "http://p/feed"
               (Some "tok1") in
  let ds : gmap string Subscription.t := {[ Subscription.key_name sub := sub ]} in
  ∃ sub',
    Subscription.confirm_failed 1000 MAX_SUBSCRIPTION_CONFIRM_FAILURES
      SUBSCRIPTION_RETRY_PERIOD 1000 sub ds !! Subscription.key_name sub
    = Some sub'
    ∧ Subscription.confirm_failures sub' = 1%Z
    ∧ Subscription.eta sub' = 1300%Z
    ∧ Subscription.eta sub'
      ≠ (1000 + SUBSCRIPTION_RETRY_PERIOD
                * 2 ^ Subscription.confirm_failures sub')%Z.
Proof.
  intros sub ds. eexists. split; [apply lookup_insert_eq|].
  split; [reflexivity|]. split; [reflexivity|]. discriminate.
Qed.

(** C4, amended.  [confirm_failed] on a Subscription whose [confirm_failures]
    is at least [MAX_SUBSCRIPTION_CONFIRM_FAILURES] deletes the entity;
    otherwise it stores the entity with [confirm_failures] incremented by 1
    and [eta] set to [now + retry_period * 2^confirm_failures], the exponent
    being the counter before the increment. *)
Theorem confirm_failed_backoff
        (clock now : Z) (self : Subscription.t)
        (ds : gmap string Subscription.t) :
  let n := Subscription.confirm_failures self in
  let ds' := Subscription.confirm_failed clock
               MAX_SUBSCRIPTION_CONFIRM_FAILURES SUBSCRIPTION_RETRY_PERIOD
               now self ds in
  ((MAX_SUBSCRIPTION_CONFIRM_FAILURES ≤ n)%Z →
   ds' = delete (Subscription.key_name self) ds)
  ∧ ((0 ≤ n < MAX_SUBSCRIPTION_CONFIRM_FAILURES)%Z →
     ds' = <[Subscription.key_name self :=
               Subscription.set_last_modified clock
                 (Subscription.set_confirm_failures (n + 1)
                    (Subscription.set_eta
                       (now + SUBSCRIPTION_RETRY_PERIOD * 2 ^ n) self))]> ds).
Proof.
  intros n ds'. subst ds'. unfold Subscription.confirm_failed. fold n. split.
  - intros Hn. by rewrite (proj2 (Z.leb_le _ _) Hn).
  - intros [_ Hn]. by rewrite (proj2 (Z.leb_gt _ _) Hn).
Qed.

Lemma confirm_failed_backoff_witness :
  let sub := Subscription.set_confirm_failures 3
               (Subscription.new plain_digest 0 "http://s/cb" "http://p/feed"
                  (Some "tok1")) in
  ∃ sub',
    Subscription.confirm_failed 1000 MAX_SUBSCRIPTION_CONFIRM_FAILURES
      SUBSCRIPTION_RETRY_PERIOD 1000 sub ∅ !! Subscription.key_name sub
    = Some sub'
    ∧ Subscription.confirm_failures sub' = 4%Z
    ∧ Subscription.eta sub' = (1000 + 300 * 8)%Z.
Proof.
  intros sub.
  destruct (confirm_failed_backoff 1000 1000 sub ∅) as [_ Hbelow].
  rewrite Hbelow.
  - eexists. split; [apply lookup_insert_eq|]. split; reflexivity.
  - unfold MAX_SUBSCRIPTION_CONFIRM_FAILURES. simpl. lia.
Defined.

(** ** PollingMarker *)

(** C9 as stated fails: with [next_start] in the past and a cursor left from
    the cycle before, [should_progress] moves [next_start] and reports
    progress, and the cursor stays as it was. *)
Lemma should_progress_keeps_current_key :
  let the_mark := PollingMarker.mk 0 (Some "hash_feed1") in
  let now := 100%Z in
  (PollingMarker.next_start the_mark < now)%Z
  ∧ PollingMarker.should_progress POLLING_BOOTSTRAP_PERIOD now the_mark
    = (true, PollingMarker.mk 10900 (Some "hash_feed1"))
  ∧ PollingMarker.current_key
      (PollingMarker.should_progress POLLING_BOOTSTRAP_PERIOD now the_mark).2
    ≠ None.
Proof.
  intros the_mark now. split; [reflexivity|]. split; [reflexivity|discriminate].
Qed.

(** C9, amended.  When [next_start] is before the current time,
    [should_progress] sets [next_start] to [now + POLLING_BOOTSTRAP_PERIOD],
    leaves [current_key] as it is and reports that polling should progress;
    otherwise it leaves the marker unchanged and reports progress exactly
    when [current_key] is neither null nor the empty string. *)
Theorem should_progress_spec (now : Z) (self : PollingMarker.t) :
  let r := PollingMarker.should_progress POLLING_BOOTSTRAP_PERIOD now self in
  ((PollingMarker.next_start self < now)%Z →
   r = (true,
        PollingMarker.mk (now + POLLING_BOOTSTRAP_PERIOD)
          (PollingMarker.current_key self)))
  ∧ ((now ≤ PollingMarker.next_start self)%Z →
     r.2 = self
     ∧ (r.1 = true ↔
        ∃ k, PollingMarker.current_key self = Some k ∧ k ≠ EmptyString)).
Proof.
  intros r. subst r. unfold PollingMarker.should_progress. split.
  - intros Hlt. by rewrite (proj2 (Z.ltb_lt _ _) Hlt).
  - intros Hge. rewrite (proj2 (Z.ltb_ge _ _) Hge).
    destruct (PollingMarker.current_key self) as [[|c k]|]; simpl.
    + split; [done|]. split; [done|]. by intros (k & [= <-] & ?).
    + split; [done|]. split; [|done]. intros _. by eexists.
    + split; [done|]. split; [done|]. by intros (k & ? & _).
Qed.

Lemma should_progress_spec_witness :
  PollingMarker.should_progress POLLING_BOOTSTRAP_PERIOD 100
    (PollingMarker.mk 40 None)
  = (true, PollingMarker.mk 10900 None)
  ∧ (PollingMarker.should_progress POLLING_BOOTSTRAP_PERIOD 100
       (PollingMarker.mk 500 (Some "hash_feed1"))).2
    = PollingMarker.mk 500 (Some "hash_feed1").
Proof.
  split.
  - apply (should_progress_spec 100 (PollingMarker.mk 40 None)).
    simpl. lia.
  - apply (should_progress_spec 100
             (PollingMarker.mk 500 (Some "hash_feed1"))).
    simpl. lia.
Defined.

(** ** PollBootstrapHandler *)

(** A cycle that comes due while a cursor is still set goes on from the
    cursor: the handler fetches the known feeds after it, not the first
    ones. *)
Example poll_bootstrap_resumes_after_cursor :
  let st :=
    PollBootstrapHandler.mkState
      (Some (PollingMarker.mk 0 (Some "hash_b")))
      {[ "hash_a" := "http://p/a"; "hash_b" := "http://p/b";
         "hash_c" := "http://p/c" ]}
      ∅ in
  let st' := PollBootstrapHandler.get plain_digest 100 st in
  PollBootstrapHandler.marker st'
  = Some (PollingMarker.mk 10900 (Some "hash_c"))
  ∧ FeedToFetch.topic <$> (map_to_list (PollBootstrapHandler.feeds_to_fetch st')).*2
    = ["http://p/c"].
Proof. vm_compute. split; reflexivity. Qed.

(** ** EventToDeliver.update *)

(** C1.  [update] deletes the event exactly when [more_callbacks] is false and
    [failed_callbacks], after the keys of [more_failed_callbacks] are
    appended, is empty; in every other case it stores the event with
    [put()]. *)
Theorem update_deletes_iff_done
        (key : string) (self : EventToDeliver.t) (more_callbacks : bool)
        (more_failed_callbacks : list Subscription.t)
        (now max_failures retry_period : Z) (w : World EventToDeliver.t) :
  let failed :=
    EventToDeliver.failed_callbacks
      (EventToDeliver.with_failures now more_failed_callbacks self) in
  let r := EventToDeliver.update key self more_callbacks
             more_failed_callbacks now max_failures retry_period w in
  length failed
  = (length (EventToDeliver.failed_callbacks self)
     + length more_failed_callbacks)%nat
  ∧ (r.1 = EventToDeliver.Deleted ↔ more_callbacks = false ∧ failed = [])
  ∧ (r.1 = EventToDeliver.Deleted →
     datastore r.2 = delete key (datastore w))
  ∧ (r.1 ≠ EventToDeliver.Deleted →
     ∃ self', r.1 = EventToDeliver.Put self'
              ∧ datastore r.2 = <[key := self']> (datastore w)
              ∧ EventToDeliver.failed_callbacks self' = failed).
Proof.
  intros failed r. split.
  { subst failed. simpl.
    by rewrite length_app, length_fmap, sorted_by_Permutation. }
  subst r. unfold EventToDeliver.update. fold failed.
  destruct more_callbacks.
  - split; [split; [done|by intros [? _]]|]. split; [done|].
    intros _. eexists. by repeat split.
  - destruct failed as [|k failed'] eqn:Hfailed.
    + split; [done|]. split; [done|]. done.
    + split; [split; [done|by intros [_ ?]]|]. split; [done|].
      intros _. eexists. split; [reflexivity|]. split; [reflexivity|].
      simpl. by rewrite <- Hfailed.
Qed.

Lemma update_deletes_iff_done_witness :
  let self :=
    EventToDeliver.mk "hash_topic" "http://p/feed" "http://p/feed" "<feed/>"
      EmptyString [] EventToDeliver.NORMAL 0 0 false in
  let w : World EventToDeliver.t :=
    mkWorld {[ "ev1" := self ]} ∅ [] in
  datastore
    (EventToDeliver.update "ev1" self false [] 50 MAX_DELIVERY_FAILURES
       DELIVERY_RETRY_PERIOD w).2 = delete "ev1" (datastore w).
Proof.
  intros self w.
  destruct (update_deletes_iff_done "ev1" self false [] 50
              MAX_DELIVERY_FAILURES DELIVERY_RETRY_PERIOD w)
    as (_ & _ & Hdel & _).
  apply Hdel. reflexivity.
Defined.

(** ** query_and_own *)

Lemma dict_of_pairs_lookup_Some {V} (pairs : list (string * V)) k v :
  dict_of_pairs pairs !! k = Some v → (k, v) ∈ pairs.
Proof.
  unfold dict_of_pairs. intros H%elem_of_list_to_map_2.
  by apply elem_of_reverse.
Qed.

Lemma elem_of_dict_keys {V} (d : gmap string V) k :
  k ∈ dict_keys d ↔ k ∈ dom d.
Proof.
  unfold dict_keys. rewrite elem_of_dom, list_elem_of_fmap. split.
  - intros ([k' v] & -> & Hin). apply elem_of_map_to_list in Hin. by eexists.
  - intros [v Hv]. exists (k, v). split; [done|].
    by apply elem_of_map_to_list.
Qed.

Lemma filter_none {A} (P : A → Prop) `{∀ x, Decision (P x)} (l : list A) :
  (∀ x, x ∈ l → ¬ P x) → filter P l = [].
Proof.
  induction l as [|y l IH]; intros Hnone; [done|].
  rewrite filter_cons_False by (apply Hnone, list_elem_of_here).
  apply IH. intros x Hx. apply Hnone. by apply list_elem_of_further.
Qed.

Lemma omap_length_le {A B} (f : A → option B) (l : list A) :
  (length (omap f l) ≤ length l)%nat.
Proof.
  induction l as [|x l IH]; simpl; [done|].
  change (list_omap A B f l) with (omap f l).
  destruct (f x); simpl; lia.
Qed.

Section QueryAndOwnFacts.
Context {Model : Type} (key : Model → string)
        (gql : gmap string Model → list Model).

(** Whatever [query_and_own] does, the datastore is as before. *)
Lemma query_and_own_datastore lease_period work_count sample_ratio lock_ratio
      rnd (w : World Model) :
  datastore (query_and_own key gql lease_period work_count sample_ratio
               lock_ratio rnd w).2 = datastore w.
Proof.
  unfold query_and_own.
  destruct (work_to_do gql work_count sample_ratio w); [done|].
  destruct (drop work_count _); simpl;
    destruct (work_count =? 1)%nat; [destruct (omap _ _)|
                                     |destruct (omap _ _)|]; done.
Qed.

(** The instances handed out all come from the query. *)
Lemma work_map_from_query work_count sample_ratio lock_ratio rnd
      (w : World Model) k x :
  work_map key gql work_count sample_ratio lock_ratio rnd w !! k = Some x →
  x ∈ gql (datastore w).
Proof.
  unfold work_map. intros H%dict_of_pairs_lookup_Some.
  apply list_elem_of_fmap in H as (y & [= -> ->] & Hy).
  apply sample_subseteq in Hy. unfold work_to_do in Hy.
  eapply elem_of_sublist; [done|apply sublist_take].
Qed.

Lemma query_and_own_one_from_query lease_period work_count sample_ratio
      lock_ratio rnd (w : World Model) x :
  (query_and_own key gql lease_period work_count sample_ratio lock_ratio
     rnd w).1 = ROne x →
  x ∈ gql (datastore w).
Proof.
  unfold query_and_own.
  destruct (work_to_do gql work_count sample_ratio w);
    [by destruct (work_count =? 1)%nat|].
  set (locked := filter _ _).
  destruct (drop work_count locked); simpl;
    (destruct (work_count =? 1)%nat; [|done]);
    (destruct (omap _ (take work_count locked)) as [|y ys] eqn:Hwork;
       [done|]);
    simpl; intros [= ->];
    (assert (x ∈ x :: ys) as Hin by apply list_elem_of_here);
    rewrite <- Hwork in Hin;
    apply list_elem_of_omap in Hin as (k & _ & Hk);
    by eapply work_map_from_query.
Qed.

(** When every lock collides, nothing is locked. *)
Lemma locked_keys_all_collide work_count sample_ratio lock_ratio rnd
      (w : World Model) :
  not_set_keys key gql work_count sample_ratio lock_ratio rnd w
  = dom (try_lock_map key gql work_count sample_ratio lock_ratio rnd w) →
  filter (λ k, k ∉ not_set_keys key gql work_count sample_ratio lock_ratio
                     rnd w)
         (dict_keys (work_map key gql work_count sample_ratio lock_ratio
                       rnd w)) = [].
Proof.
  intros Hall. apply filter_none. intros k Hk Hnot. apply Hnot.
  rewrite Hall. unfold try_lock_map. rewrite dom_fmap_L.
  by apply elem_of_dict_keys.
Qed.

End QueryAndOwnFacts.

Lemma query_and_own_shape_one {Model} (key : Model → string) gql lease_period
      sample_ratio lock_ratio rnd (w : World Model) :
  let r := (query_and_own key gql lease_period 1 sample_ratio lock_ratio
              rnd w).1 in
  r = RNone ∨ ∃ x, r = ROne x.
Proof.
  unfold query_and_own.
  destruct (work_to_do gql 1 sample_ratio w); [by left|].
  destruct (drop 1 _); simpl; destruct (omap _ _); simpl; eauto.
Qed.

(** C2.  When every lock that [query_and_own] tries collides (the keys that
    [memcache.add_multi] did not set are all the keys tried), it returns no
    work: [None] for a [work_count] of 1 and the empty list otherwise; the
    datastore is as it was before the call. *)
Theorem query_and_own_all_locks_collide
        {Model : Type} (key : Model → string)
        (gql : gmap string Model → list Model) (lease_period : Z)
        (work_count sample_ratio lock_ratio : nat) (rnd : list nat)
        (w : World Model) :
  not_set_keys key gql work_count sample_ratio lock_ratio rnd w
  = dom (try_lock_map key gql work_count sample_ratio lock_ratio rnd w) →
  let r := query_and_own key gql lease_period work_count sample_ratio
             lock_ratio rnd w in
  (work_count = 1%nat → r.1 = RNone)
  ∧ (work_count ≠ 1%nat → r.1 = RList [])
  ∧ datastore r.2 = datastore w.
Proof.
  intros Hall r.
  split; [|split; [|apply query_and_own_datastore]]; subst r;
    unfold query_and_own;
    (destruct (work_to_do gql work_count sample_ratio w);
     [|rewrite (locked_keys_all_collide key gql _ _ _ _ _ Hall);
       rewrite drop_nil, take_nil; simpl]).
  - by intros ->.
  - by intros ->.
  - intros Hne. by rewrite (proj2 (Nat.eqb_neq _ _) Hne).
  - intros Hne. by rewrite (proj2 (Nat.eqb_neq _ _) Hne).
Qed.

(** C10.  With a [work_count] of 1, [query_and_own] returns [None] or a single
    instance, never a list; with a larger one it returns a list of at most
    [work_count] instances.  When the query fetches no candidate it returns
    at once, [None] or the empty list, and makes no memcache call: the world,
    the record of memcache calls included, is untouched. *)
Theorem query_and_own_result_shape
        {Model : Type} (key : Model → string)
        (gql : gmap string Model → list Model) (lease_period : Z)
        (work_count sample_ratio lock_ratio : nat) (rnd : list nat)
        (w : World Model) :
  let r := query_and_own key gql lease_period work_count sample_ratio
             lock_ratio rnd w in
  (work_count = 1%nat → r.1 = RNone ∨ ∃ x, r.1 = ROne x)
  ∧ ((1 < work_count)%nat →
     ∃ ws, r.1 = RList ws ∧ (length ws ≤ work_count)%nat)
  ∧ (work_to_do gql work_count sample_ratio w = [] →
     r = (if (work_count =? 1)%nat then RNone else RList [], w)).
Proof.
  intros r. subst r. split; [|split].
  - intros ->. apply query_and_own_shape_one.
  - intros Hwc. unfold query_and_own.
    assert ((work_count =? 1)%nat = false) as Hne
      by (apply Nat.eqb_neq; lia).
    destruct (work_to_do gql work_count sample_ratio w).
    + rewrite Hne. exists []. split; [done|simpl; lia].
    + set (locked := filter _ _).
      assert (length (omap
                (λ k, work_map key gql work_count sample_ratio lock_ratio
                        rnd w !! k) (take work_count locked)) ≤ work_count)%nat
        as Hlen.
      { etrans; [apply omap_length_le|]. rewrite length_take. lia. }
      destruct (drop work_count locked); rewrite Hne; simpl; eauto.
  - intros Hnone. unfold query_and_own. by rewrite Hnone.
Qed.

Lemma query_and_own_result_shape_witness :
  let a := FeedToFetch.mk "hash_a" "http://p/a" 10 0 false in
  let b := FeedToFetch.mk "hash_b" "http://p/b" 20 0 false in
  let w : World FeedToFetch.t :=
    mkWorld {[ "hash_a" := a; "hash_b" := b ]} ∅ [] in
  (∃ ws, (query_and_own FeedToFetch.key (FeedToFetch.work_query 100) 15 2 20
            4 [1%nat] w).1 = RList ws ∧ (length ws ≤ 2)%nat)
  ∧ query_and_own FeedToFetch.key (FeedToFetch.work_query 5) 15 1 20 4 [] w
    = (RNone, w).
Proof.
  intros a b w. split.
  - apply (query_and_own_result_shape FeedToFetch.key
             (FeedToFetch.work_query 100) 15 2 20 4 [1%nat] w). lia.
  - apply (query_and_own_result_shape FeedToFetch.key
             (FeedToFetch.work_query 5) 15 1 20 4 [] w).
    vm_compute. reflexivity.
Defined.

Lemma query_and_own_all_locks_collide_witness :
  let a := FeedToFetch.mk "hash_a" "http://p/a" 10 0 false in
  let w : World FeedToFetch.t :=
    mkWorld {[ "hash_a" := a ]} {[ FeedToFetch.key a := "owned" ]} [] in
  (query_and_own FeedToFetch.key (FeedToFetch.work_query 100) 15 1 20 4 []
     w).1 = RNone.
Proof.
  intros a w.
  apply (query_and_own_all_locks_collide FeedToFetch.key
           (FeedToFetch.work_query 100) 15 1 20 4 [] w).
  - vm_compute. reflexivity.
  - reflexivity.
Defined.

(** ** FeedToFetch *)

Lemma fetch_failed_put max_failures retry_period now self
      (ds : gmap string FeedToFetch.t) :
  let r := FeedToFetch.fetch_failed max_failures retry_period now self ds in
  r.2 = <[FeedToFetch.key_name self := r.1]> ds
  ∧ FeedToFetch.key_name r.1 = FeedToFetch.key_name self.
Proof.
  unfold FeedToFetch.fetch_failed.
  by destruct (max_failures <=? FeedToFetch.fetching_failures self)%Z.
Qed.

Lemma fail_repeatedly_gives_up (nows : list Z) (name : string) :
  ∀ (ds : gmap string FeedToFetch.t) (f : FeedToFetch.t),
    ds !! name = Some f →
    FeedToFetch.key_name f = name →
    (0 ≤ FeedToFetch.fetching_failures f ≤ MAX_FEED_PULL_FAILURES)%Z →
    ∃ f', FeedToFetch.fail_repeatedly nows name ds !! name = Some f'
          ∧ (FeedToFetch.totally_failed f' = true ↔
             FeedToFetch.totally_failed f = true
             ∨ (10 ≤ FeedToFetch.fetching_failures f + Z.of_nat (length nows))%Z).
Proof.
  unfold MAX_FEED_PULL_FAILURES.
  induction nows as [|now nows IH]; intros ds f Hf Hname Hrange; simpl.
  - exists f. split; [done|]. split; [by left|]. intros [?|?]; [done|lia].
  - rewrite Hf.
    destruct (fetch_failed_put MAX_FEED_PULL_FAILURES FEED_PULL_RETRY_PERIOD
                now f ds) as [Hput Hkey].
    rewrite Hput, Hname.
    destruct (IH (<[name :=
                     (FeedToFetch.fetch_failed MAX_FEED_PULL_FAILURES
                        FEED_PULL_RETRY_PERIOD now f ds).1]> ds)
                 (FeedToFetch.fetch_failed MAX_FEED_PULL_FAILURES
                    FEED_PULL_RETRY_PERIOD now f ds).1)
      as (f' & Hf' & Hiff).
    + apply lookup_insert_eq.
    + by rewrite Hkey.
    + unfold FeedToFetch.fetch_failed, MAX_FEED_PULL_FAILURES.
      destruct (9 <=? FeedToFetch.fetching_failures f)%Z eqn:Hcap; simpl.
      * lia.
      * apply Z.leb_gt in Hcap. lia.
    + exists f'. split; [done|]. rewrite Hiff.
      unfold FeedToFetch.fetch_failed, MAX_FEED_PULL_FAILURES.
      destruct (9 <=? FeedToFetch.fetching_failures f)%Z eqn:Hcap; simpl.
      * apply Z.leb_le in Hcap. split; [intros _; right; lia|by left].
      * apply Z.leb_gt in Hcap. split; (intros [?|?]; [by left|right; lia]).
Qed.

Lemma work_query_ready now (ds : gmap string FeedToFetch.t) f :
  f ∈ FeedToFetch.work_query now ds →
  FeedToFetch.totally_failed f = false ∧ (FeedToFetch.eta f ≤ now)%Z.
Proof.
  unfold FeedToFetch.work_query. rewrite elem_of_sorted_by.
  intros [Hready _]%list_elem_of_filter.
  unfold FeedToFetch.ready in Hready.
  apply andb_true_iff in Hready as [Heta Hfailed].
  split; [by apply negb_true_iff|by apply Z.leb_le].
Qed.

(** C5.  [fetch_failed] with the counter below [MAX_FEED_PULL_FAILURES]
    increments [fetching_failures] and sets [eta] to the current time plus
    [retry_period * 2^fetching_failures], the exponent taken before the
    increment; with the counter at the cap it sets [totally_failed].  Either
    way the entity is stored.  From a counter of zero, [totally_failed] is
    true after a run of consecutive failures exactly when the run has ten or
    more of them.  [FeedToFetch.get_work] never returns an entity whose
    [totally_failed] is true. *)
Theorem fetch_failed_backs_off_then_gives_up :
  (∀ (now : Z) (self : FeedToFetch.t) (ds : gmap string FeedToFetch.t),
     let n := FeedToFetch.fetching_failures self in
     let r := FeedToFetch.fetch_failed MAX_FEED_PULL_FAILURES
                FEED_PULL_RETRY_PERIOD now self ds in
     ((0 ≤ n < MAX_FEED_PULL_FAILURES)%Z →
      r.1 = FeedToFetch.mk (FeedToFetch.key_name self) (FeedToFetch.topic self)
              (now + FEED_PULL_RETRY_PERIOD * 2 ^ n) (n + 1)
              (FeedToFetch.totally_failed self))
     ∧ ((MAX_FEED_PULL_FAILURES ≤ n)%Z →
        r.1 = FeedToFetch.mk (FeedToFetch.key_name self)
                (FeedToFetch.topic self) (FeedToFetch.eta self) n true)
     ∧ r.2 = <[FeedToFetch.key_name self := r.1]> ds)
  ∧ (∀ (nows : list Z) (name : string) (ds : gmap string FeedToFetch.t)
       (f : FeedToFetch.t),
       ds !! name = Some f →
       FeedToFetch.key_name f = name →
       FeedToFetch.fetching_failures f = 0%Z →
       FeedToFetch.totally_failed f = false →
       ∃ f', FeedToFetch.fail_repeatedly nows name ds !! name = Some f'
             ∧ (FeedToFetch.totally_failed f' = true ↔
                (10 ≤ length nows)%nat))
  ∧ (∀ (now : Z) (rnd : list nat) (w : World FeedToFetch.t),
       match (FeedToFetch.get_work now rnd w).1 with
       | RNone => True
       | ROne f => FeedToFetch.totally_failed f = false
       | RList _ => False
       end).
Proof.
  split; [|split].
  - intros now self ds n r. subst r. split; [|split].
    + intros [_ Hn]. unfold FeedToFetch.fetch_failed. fold n.
      by rewrite (proj2 (Z.leb_gt _ _) Hn).
    + intros Hn. unfold FeedToFetch.fetch_failed. fold n.
      by rewrite (proj2 (Z.leb_le _ _) Hn).
    + apply fetch_failed_put.
  - intros nows name ds f Hf Hname Hzero Hfalse.
    destruct (fail_repeatedly_gives_up nows name ds f Hf Hname)
      as (f' & Hf' & Hiff).
    { rewrite Hzero. unfold MAX_FEED_PULL_FAILURES. lia. }
    exists f'. split; [done|]. rewrite Hiff, Hzero, Hfalse.
    split; [intros [?|?]; [done|lia]|intros ?; right; lia].
  - intros now rnd w. unfold FeedToFetch.get_work.
    destruct (query_and_own_shape_one FeedToFetch.key
                (FeedToFetch.work_query now) LEASE_PERIOD_SECONDS 20 4 rnd w)
      as [Hnone|[f Hone]].
    + by rewrite Hnone.
    + rewrite Hone.
      apply query_and_own_one_from_query in Hone.
      by apply work_query_ready in Hone as [? _].
Qed.

Lemma fetch_failed_backs_off_then_gives_up_witness :
  let f := FeedToFetch.mk "hash_a" "http://p/a" 0 0 false in
  let ds : gmap string FeedToFetch.t := {[ "hash_a" := f ]} in
  (FeedToFetch.fetch_failed MAX_FEED_PULL_FAILURES FEED_PULL_RETRY_PERIOD 100
     (FeedToFetch.mk "hash_a" "http://p/a" 0 3 false) ds).1
  = FeedToFetch.mk "hash_a" "http://p/a" 580 4 false
  ∧ (∃ f', FeedToFetch.fail_repeatedly [1; 2; 3; 4; 5; 6; 7; 8; 9; 10]%Z
             "hash_a" ds !! "hash_a" = Some f'
           ∧ FeedToFetch.totally_failed f' = true)
  ∧ (∃ f', FeedToFetch.fail_repeatedly [1; 2; 3; 4; 5; 6; 7; 8; 9]%Z
             "hash_a" ds !! "hash_a" = Some f'
           ∧ FeedToFetch.totally_failed f' = false).
Proof.
  intros f ds.
  destruct fetch_failed_backs_off_then_gives_up as (Hstep & Hrun & _).
  split; [|split].
  - apply (Hstep 100%Z (FeedToFetch.mk "hash_a" "http://p/a" 0 3 false) ds).
    unfold MAX_FEED_PULL_FAILURES. simpl. lia.
  - destruct (Hrun [1; 2; 3; 4; 5; 6; 7; 8; 9; 10]%Z "hash_a" ds f)
      as (f' & Hf' & Hiff); [reflexivity..|].
    exists f'. split; [done|]. apply Hiff. simpl. lia.
  - destruct (Hrun [1; 2; 3; 4; 5; 6; 7; 8; 9]%Z "hash_a" ds f)
      as (f' & Hf' & Hiff); [reflexivity..|].
    exists f'. split; [done|].
    destruct (FeedToFetch.totally_failed f') eqn:Hfailed; [|done].
    destruct Hiff as [Hten _]. specialize (Hten eq_refl). simpl in Hten. lia.
Defined.

(** ** Strings *)

Lemma append_cons c (s1 s2 : string) :
  String c s1 +:+ s2 = String c (s1 +:+ s2).
Proof. reflexivity. Qed.

Lemma string_take_drop (n : nat) (s : string) :
  string_take n s +:+ string_drop n s = s.
Proof.
  revert n. induction s as [|c s IH]; intros [|n]; try done.
  cbn [string_take string_drop]. by rewrite append_cons, IH.
Qed.

Lemma string_take_app (before rest : string) :
  string_take (String.length before) (before +:+ rest) = before.
Proof.
  induction before as [|c before IH]; [by destruct rest|].
  rewrite append_cons. simpl. by rewrite IH.
Qed.

Lemma string_drop_app (before rest : string) :
  string_drop (String.length before) (before +:+ rest) = rest.
Proof.
  induction before as [|c before IH]; [by destruct rest|].
  by rewrite append_cons.
Qed.

Lemma prefix_true_iff (sub s : string) :
  String.prefix sub s = true ↔ ∃ after, s = sub +:+ after.
Proof.
  revert s. induction sub as [|a sub IH]; intros s.
  - split; [intros _; by exists s|by destruct s].
  - destruct s as [|b s]; simpl.
    + split; [done|by intros [? ?]].
    + destruct (Ascii.ascii_dec a b) as [->|Hne].
      * rewrite IH. split; intros [after Hafter]; exists after.
        -- by rewrite append_cons, Hafter.
        -- rewrite append_cons in Hafter. by injection Hafter.
      * split; [done|]. intros [after Hafter].
        rewrite append_cons in Hafter. injection Hafter as ? _.
        by destruct Hne.
Qed.

Lemma occurs_at_O (sub s : string) :
  occurs_at 0 sub s ↔ String.prefix sub s = true.
Proof.
  rewrite prefix_true_iff. split.
  - intros (before & after & -> & Hlen). destruct before; [|done].
    by exists after.
  - intros [after ->]. by exists EmptyString, after.
Qed.

Lemma occurs_at_S (j : nat) (sub : string) c (s : string) :
  occurs_at (S j) sub (String c s) ↔ occurs_at j sub s.
Proof.
  split.
  - intros (before & after & Heq & Hlen).
    destruct before as [|b before]; [done|].
    rewrite append_cons in Heq. injection Heq as -> ->.
    injection Hlen as Hlen. by exists before, after.
  - intros (before & after & -> & Hlen).
    exists (String c before), after. by rewrite <- Hlen.
Qed.

Lemma occurs_at_empty (j : nat) (sub : string) :
  occurs_at j sub EmptyString → j = 0%nat.
Proof.
  intros (before & after & Heq & Hlen). by destruct before.
Qed.

(** [rfind] finds the last occurrence, and finds one whenever there is one. *)
Lemma rfind_spec (s sub : string) :
  match rfind s sub with
  | Some i => occurs_at i sub s ∧ ∀ j, occurs_at j sub s → (j ≤ i)%nat
  | None => ∀ j, ¬ occurs_at j sub s
  end.
Proof.
  induction s as [|c s IH].
  - cbn [rfind]. destruct (String.prefix sub EmptyString) eqn:Hp.
    + split; [by apply occurs_at_O|].
      intros j Hj. apply occurs_at_empty in Hj. lia.
    + intros j Hj. pose proof (occurs_at_empty _ _ Hj) as ->.
      apply occurs_at_O in Hj. congruence.
  - cbn [rfind]. destruct (rfind s sub) as [i|].
    + destruct IH as [Hocc Hmax]. split; [by apply occurs_at_S|].
      intros [|j] Hj; [lia|]. apply occurs_at_S, Hmax in Hj. lia.
    + destruct (String.prefix sub (String c s)) eqn:Hp.
      * split; [by apply occurs_at_O|].
        intros [|j] Hj; [lia|]. by apply occurs_at_S, IH in Hj.
      * intros [|j] Hj.
        -- apply occurs_at_O in Hj. congruence.
        -- by apply occurs_at_S, IH in Hj.
Qed.

(** ** EventToDeliver.create_event_for_topic *)

(** C8.  For the format atom or rss (closing tag [</feed>] or [</channel>])
    and a [header_footer] that contains the closing tag, the payload of the
    event that [create_event_for_topic] builds is the XML declaration, then
    the part of [header_footer] before the last occurrence of the closing
    tag, then the entry payloads in their order, then the rest of
    [header_footer] from that closing tag on, joined by newlines. *)
Theorem create_event_for_topic_payload
        (sha1_hash : string → string)
        (topic format header_footer close_tag : string)
        (entry_payloads : list string) (now : Z) :
  (format = ATOM ∧ close_tag = "</feed>")
  ∨ (format = RSS ∧ close_tag = "</channel>") →
  (∃ j, occurs_at j close_tag header_footer) →
  ∃ event before after,
    EventToDeliver.create_event_for_topic sha1_hash topic format
      header_footer entry_payloads now = Some event
    ∧ header_footer = before +:+ close_tag +:+ after
    ∧ (∀ j, occurs_at j close_tag header_footer →
            (j ≤ String.length before)%nat)
    ∧ EventToDeliver.payload event
      = String.concat newline
          ([EventToDeliver.xml_declaration; before]
             ++ entry_payloads ++ [close_tag +:+ after])
    ∧ EventToDeliver.topic event = topic
    ∧ EventToDeliver.last_modified event = now
    ∧ EventToDeliver.failed_callbacks event = []
    ∧ EventToDeliver.delivery_mode event = EventToDeliver.NORMAL.
Proof.
  intros Hformat [j Hj].
  assert (EventToDeliver.create_event_for_topic sha1_hash topic format
            header_footer entry_payloads now
          = match rfind header_footer close_tag with
            | None => None
            | Some close_index =>
                Some (EventToDeliver.mk
                        (FeedRecord.create_key_name sha1_hash topic) topic
                        (sha1_hash topic)
                        (String.concat newline
                           ([EventToDeliver.xml_declaration;
                             string_take close_index header_footer]
                              ++ entry_payloads
                              ++ [string_drop close_index header_footer]))
                        EmptyString [] EventToDeliver.NORMAL 0 now false)
            end) as ->
    by (destruct Hformat as [[-> ->]|[-> ->]]; reflexivity).
  pose proof (rfind_spec header_footer close_tag) as Hspec.
  destruct (rfind header_footer close_tag) as [i|]; [|by destruct (Hspec j)].
  destruct Hspec as [(before & after & Heq & Hlen) Hmax].
  eexists _, before, after. split; [reflexivity|]. split; [done|].
  split; [by rewrite Hlen|]. simpl.
  by rewrite <- Hlen, Heq, string_take_app, string_drop_app.
Qed.

Lemma create_event_for_topic_payload_witness :
  ∃ event,
    EventToDeliver.create_event_for_topic plain_digest "http://p/feed" ATOM
      "<feed><title>t</title></feed>" ["<entry>A</entry>"; "<entry>B</entry>"]
      77 = Some event
    ∧ EventToDeliver.payload event
      = String.concat newline
          [EventToDeliver.xml_declaration; "<feed><title>t</title>";
           "<entry>A</entry>"; "<entry>B</entry>"; "</feed>"].
Proof.
  destruct (create_event_for_topic_payload plain_digest "http://p/feed" ATOM
              "<feed><title>t</title></feed>" "</feed>"
              ["<entry>A</entry>"; "<entry>B</entry>"] 77)
    as (event & before & after & Hsome & _).
  - left. split; reflexivity.
  - exists 22%nat, "<feed><title>t</title>", EmptyString.
    split; reflexivity.
  - exists event. split; [exact Hsome|].
    vm_compute in Hsome. injection Hsome as <-. reflexivity.
Defined.

(** ** EventToDeliver.get_next_subscribers *)

(** C6.  In retry mode the next chunk is the first [chunk_size] keys of
    [failed_callbacks] and [more_subscribers] says whether
    [failed_callbacks] is longer than that chunk.  With a non-empty
    [last_callback] whose Subscription key occurs in the chunk, the chunk is
    cut just before the first occurrence of that key and [more_subscribers]
    is false.  With an empty [last_callback] and a non-empty dereferenced
    chunk, [last_callback] becomes the callback of the chunk's first
    subscription.  The subscriptions returned are those of the chunk's keys
    that exist, and the chunk's keys leave [failed_callbacks]. *)
Theorem get_next_subscribers_retry
        (sha1_hash : string → string) (chunk_size : option nat)
        (self : EventToDeliver.t) (subs : gmap string Subscription.t) :
  EventToDeliver.delivery_mode self = EventToDeliver.RETRY →
  let failed := EventToDeliver.failed_callbacks self in
  let chunk :=
    take (default EVENT_SUBSCRIBER_CHUNK_SIZE chunk_size) failed in
  let more := bool_decide ((length chunk < length failed)%nat) in
  let sentinel :=
    Subscription.create_key_name sha1_hash (EventToDeliver.last_callback self)
      (EventToDeliver.topic self) in
  let with_cursor cursor rest :=
    EventToDeliver.mk (EventToDeliver.parent self) (EventToDeliver.topic self)
      (EventToDeliver.topic_hash self) (EventToDeliver.payload self)
      cursor rest EventToDeliver.RETRY (EventToDeliver.retry_attempts self)
      (EventToDeliver.last_modified self)
      (EventToDeliver.totally_failed self) in
  let r := EventToDeliver.get_next_subscribers sha1_hash chunk_size self
             subs in
  (EventToDeliver.last_callback self ≠ EmptyString → sentinel ∈ chunk →
   ∃ i, chunk !! i = Some sentinel
        ∧ (sentinel ∉ take i chunk)
        ∧ r = (false, omap (λ k, subs !! k) (take i chunk),
               with_cursor (EventToDeliver.last_callback self)
                 (drop i failed)))
  ∧ (EventToDeliver.last_callback self ≠ EmptyString → sentinel ∉ chunk →
     r = (more, omap (λ k, subs !! k) chunk,
          with_cursor (EventToDeliver.last_callback self)
            (drop (length chunk) failed)))
  ∧ (EventToDeliver.last_callback self = EmptyString →
     r = (more, omap (λ k, subs !! k) chunk,
          with_cursor
            (match omap (λ k, subs !! k) chunk with
             | s :: _ => Subscription.callback s
             | [] => EmptyString
             end)
            (drop (length chunk) failed))).
Proof.
  intros Hmode failed chunk more sentinel with_cursor r.
  assert ((length chunk <? length failed)%nat = more) as Hmore.
  { subst more. destruct (Nat.ltb_spec (length chunk) (length failed)).
    - by rewrite bool_decide_eq_true_2.
    - rewrite bool_decide_eq_false_2; [done|lia]. }
  subst r with_cursor. unfold EventToDeliver.get_next_subscribers.
  rewrite Hmode. fold failed. fold chunk. fold sentinel. rewrite Hmore.
  split; [|split].
  - intros Hcursor Hin.
    destruct (decide (EventToDeliver.last_callback self = EmptyString));
      [done|].
    destruct (list_find (λ k, k = sentinel) chunk) as [[i k]|] eqn:Hfind.
    + apply list_find_Some in Hfind as (Hi & -> & Hfirst).
      exists i. split; [done|]. split.
      { intros (j & Hj & Hlt)%elem_of_take. by eapply Hfirst. }
      assert (length (take i chunk) = i) as ->.
      { rewrite length_take. apply lookup_lt_Some in Hi. lia. }
      by destruct (omap _ (take i chunk)).
    + apply list_find_None in Hfind.
      by destruct (proj1 (Forall_forall _ _) Hfind sentinel Hin).
  - intros Hcursor Hnotin.
    destruct (decide (EventToDeliver.last_callback self = EmptyString));
      [done|].
    destruct (list_find (λ k, k = sentinel) chunk) as [[i k]|] eqn:Hfind.
    + apply list_find_Some in Hfind as (Hi & -> & _).
      destruct Hnotin. by eapply list_elem_of_lookup_2.
    + by destruct (omap _ chunk).
  - intros Hempty.
    destruct (decide (EventToDeliver.last_callback self = EmptyString));
      [|done].
    destruct (omap _ chunk); [by rewrite Hempty|done].
Qed.

Lemma get_next_subscribers_retry_witness :
  let sub cb :=
    Subscription.set_subscription_state Subscription.STATE_VERIFIED
      (Subscription.new plain_digest 0 cb "http://p/feed" None) in
  let a := sub "http://s/a" in
  let b := sub "http://s/b" in
  let c := sub "http://s/c" in
  let subs : gmap string Subscription.t :=
    {[ Subscription.key_name a := a; Subscription.key_name b := b;
       Subscription.key_name c := c ]} in
  let event cursor :=
    EventToDeliver.mk "hash_http://p/feed" "http://p/feed" "http://p/feed"
      "<feed/>" cursor
      [Subscription.key_name b; Subscription.key_name c;
       Subscription.key_name a]
      EventToDeliver.RETRY 1 0 false in
  (∃ i, (EventToDeliver.get_next_subscribers plain_digest None
           (event "http://s/c") subs).1
        = (false, omap (λ k, subs !! k)
                    (take i [Subscription.key_name b; Subscription.key_name c;
                             Subscription.key_name a])))
  ∧ EventToDeliver.last_callback
      (EventToDeliver.get_next_subscribers plain_digest (Some 2%nat)
         (event EmptyString) subs).2 = "http://s/b".
Proof.
  intros sub a b c subs event. split.
  - destruct (get_next_subscribers_retry plain_digest None
                (event "http://s/c") subs eq_refl) as (Hwrap & _).
    destruct Hwrap as (i & _ & _ & Heq).
    + discriminate.
    + vm_compute. apply list_elem_of_further, list_elem_of_here.
    + exists i. by rewrite Heq.
  - destruct (get_next_subscribers_retry plain_digest (Some 2%nat)
                (event EmptyString) subs eq_refl) as (_ & _ & Hfirst).
    rewrite Hfirst; reflexivity.
Defined.

(** ** find_feed_updates *)

Section FindFeedUpdatesFacts.
Context (sha1_hash : string → string).

Lemma get_hash_key_name_inj (a b : string) :
  get_hash_key_name sha1_hash a = get_hash_key_name sha1_hash b →
  sha1_hash a = sha1_hash b.
Proof. unfold get_hash_key_name. apply String.app_inj. Qed.

(** The loop of [find_feed_updates] keeps the items that [P] holds for, when
    [P] agrees with the test the loop makes on [existing_dict]. *)
Lemma find_feed_updates_fold (clock : Z) (topic : string)
      (existing_dict : gmap string (option string))
      (P : string * string → Prop) `{∀ x, Decision (P x)}
      (l : list (string * string)) :
  (∀ eid raw, (eid, raw) ∈ l →
     (P (eid, raw) ↔
      match existing_dict !! eid with
      | Some old => old ≠ Some (sha1_hash raw)
      | None => True
      end)) →
  ∀ acc,
    foldl (find_feed_updates_step sha1_hash clock topic existing_dict) acc l
    = (acc.1 ++ ((λ item, FeedEntryRecord.create_entry_for_topic sha1_hash
                            clock topic item.1 (sha1_hash item.2))
                   <$> filter P l),
       acc.2 ++ (filter P l).*2).
Proof.
  induction l as [|[eid raw] l IH]; intros Hagree acc.
  - simpl. rewrite !app_nil_r. by destruct acc.
  - cbn [foldl]. rewrite IH
      by (intros ???; apply Hagree; by apply list_elem_of_further).
    pose proof (Hagree eid raw (list_elem_of_here _ _)) as Hhere.
    unfold find_feed_updates_step.
    destruct (existing_dict !! eid) as [old|].
    + destruct (decide (old = Some (sha1_hash raw))) as [Heq|Hne].
      * rewrite filter_cons_False; [done|]. rewrite Hhere. by intros ?.
      * rewrite filter_cons_True by (by apply Hhere).
        simpl. by rewrite <- !app_assoc.
    + rewrite filter_cons_True by (by apply Hhere).
      simpl. by rewrite <- !app_assoc.
Qed.

(** What [existing_dict] holds for an entry id of the feed, when every stored
    record found under the key of such an id carries that id. *)
Lemma existing_dict_lookup (topic : string) (ids : list string)
      (ds : FeedEntryRecord.store) (eid : string) :
  (∀ id r, id ∈ ids →
     ds !! FeedEntryRecord.create_key sha1_hash topic id = Some r →
     FeedEntryRecord.entry_id r = id) →
  eid ∈ ids →
  dict_of_pairs
    ((λ e, (FeedEntryRecord.entry_id e, FeedEntryRecord.entry_content_hash e))
       <$> FeedEntryRecord.get_entries_for_topic sha1_hash topic ids ds)
    !! eid
  = FeedEntryRecord.entry_content_hash
      <$> ds !! FeedEntryRecord.create_key sha1_hash topic eid.
Proof.
  intros Hcons Hin. unfold dict_of_pairs.
  set (pairs := _ <$> FeedEntryRecord.get_entries_for_topic _ _ _ _).
  destruct (list_to_map (reverse pairs) !! eid) as [h|] eqn:Hlook.
  - apply elem_of_list_to_map_2 in Hlook. rewrite elem_of_reverse in Hlook.
    apply list_elem_of_fmap in Hlook as (r & [= Hid ->] & Hr).
    apply list_elem_of_omap in Hr as (id & Hid' & Hr).
    rewrite (Hcons id r Hid' Hr) in Hid. subst id. by rewrite Hr.
  - apply not_elem_of_list_to_map_2 in Hlook.
    destruct (ds !! FeedEntryRecord.create_key sha1_hash topic eid)
      as [r|] eqn:Hr; [|done].
    destruct Hlook. rewrite fmap_reverse. apply elem_of_reverse.
    apply list_elem_of_fmap. exists (eid, FeedEntryRecord.entry_content_hash r).
    split; [done|]. apply list_elem_of_fmap. exists r.
    split; [by rewrite (Hcons eid r Hin Hr)|].
    apply list_elem_of_omap. by exists eid.
Qed.

(** [put_all] writes each entity under its own key, a later one replacing an
    earlier one there, and leaves the other keys alone. *)
Lemma put_all_lookup (entities : list FeedEntryRecord.t)
      (ds : FeedEntryRecord.store) (k : string * string) :
  (∃ e, e ∈ entities
        ∧ (FeedEntryRecord.parent e, FeedEntryRecord.key_name e) = k
        ∧ FeedEntryRecord.put_all entities ds !! k = Some e)
  ∨ ((∀ e, e ∈ entities →
           (FeedEntryRecord.parent e, FeedEntryRecord.key_name e) ≠ k)
     ∧ FeedEntryRecord.put_all entities ds !! k = ds !! k).
Proof.
  unfold FeedEntryRecord.put_all.
  induction entities as [|e entities IH] using rev_ind.
  - right. split; [by intros ? ?%elem_of_nil|done].
  - rewrite foldl_app. simpl.
    destruct (decide ((FeedEntryRecord.parent e, FeedEntryRecord.key_name e)
                      = k)) as [Hk|Hk].
    + left. exists e. split; [apply elem_of_app; right; apply list_elem_of_here|].
      split; [done|]. rewrite Hk. apply lookup_insert_eq.
    + rewrite lookup_insert_ne by done.
      destruct IH as [(e' & Hin & Hkey & Hlook)|[Hnone Hlook]].
      * left. exists e'. split; [apply elem_of_app; by left|done].
      * right. split; [|done].
        intros e' [Hin|Hin%list_elem_of_singleton]%elem_of_app;
          [by apply Hnone|by subst].
Qed.

End FindFeedUpdatesFacts.

(** [find_feed_updates] returns the entries that are updates with respect to
    the store, in the order of the feed dictionary. *)
Lemma find_feed_updates_filter
      (sha1_hash : string → string)
      (filter_feed : string → string → option (string * gmap string string))
      (clock : Z) (topic format feed_content : string)
      (ds : FeedEntryRecord.store)
      (header_footer : string) (entries_map : gmap string string) :
  filter_feed feed_content format = Some (header_footer, entries_map) →
  (∀ eid r, is_Some (entries_map !! eid) →
     ds !! FeedEntryRecord.create_key sha1_hash topic eid = Some r →
     FeedEntryRecord.entry_id r = eid) →
  find_feed_updates sha1_hash filter_feed clock topic format feed_content ds
  = Some (header_footer,
          (λ item, FeedEntryRecord.create_entry_for_topic sha1_hash clock
                     topic item.1 (sha1_hash item.2))
            <$> filter (entry_is_update sha1_hash topic ds)
                       (map_to_list entries_map),
          (filter (entry_is_update sha1_hash topic ds)
                  (map_to_list entries_map)).*2).
Proof.
  intros Hfeed Hcons. unfold find_feed_updates. rewrite Hfeed.
  rewrite (find_feed_updates_fold sha1_hash clock topic _
             (entry_is_update sha1_hash topic ds)); [done|].
  intros eid raw Hin%elem_of_map_to_list.
  rewrite existing_dict_lookup.
  - unfold entry_is_update. simpl. by destruct (ds !! _).
  - intros id r Hid%elem_of_dict_keys%elem_of_dom. by apply Hcons.
  - apply elem_of_dict_keys, elem_of_dom. by eexists.
Qed.

(** After the records of a run are stored, every entry of the feed has a
    record with its id and the hash of its XML. *)
Lemma put_all_updates_lookup
      (sha1_hash : string → string) (clock : Z) (topic : string)
      (ds : FeedEntryRecord.store) (entries_map : gmap string string)
      (eid raw : string) :
  (∀ eid r, is_Some (entries_map !! eid) →
     ds !! FeedEntryRecord.create_key sha1_hash topic eid = Some r →
     FeedEntryRecord.entry_id r = eid) →
  (∀ e1 e2, is_Some (entries_map !! e1) → is_Some (entries_map !! e2) →
     sha1_hash e1 = sha1_hash e2 → e1 = e2) →
  entries_map !! eid = Some raw →
  ∃ r,
    FeedEntryRecord.put_all
      ((λ item, FeedEntryRecord.create_entry_for_topic sha1_hash clock topic
                  item.1 (sha1_hash item.2))
         <$> filter (entry_is_update sha1_hash topic ds)
                    (map_to_list entries_map)) ds
      !! FeedEntryRecord.create_key sha1_hash topic eid = Some r
    ∧ FeedEntryRecord.entry_id r = eid
    ∧ FeedEntryRecord.entry_content_hash r = Some (sha1_hash raw).
Proof.
  intros Hcons Hinj Hraw.
  set (entities := _ <$> filter _ _).
  destruct (put_all_lookup entities ds
              (FeedEntryRecord.create_key sha1_hash topic eid))
    as [(e & Hin & Hkey & Hlook)|[Hnone Hlook]].
  - exists e. split; [done|].
    apply list_elem_of_fmap in Hin as ([eid' raw'] & -> & Hin).
    apply list_elem_of_filter in Hin as [_ Hin%elem_of_map_to_list].
    apply (f_equal snd) in Hkey. simpl in Hkey.
    apply get_hash_key_name_inj in Hkey.
    assert (eid' = eid) as -> by (apply Hinj; [by eexists..|done]).
    simpl. split; [done|]. congruence.
  - rewrite Hlook.
    destruct (decide (entry_is_update sha1_hash topic ds (eid, raw)))
      as [Hupd|Hupd].
    + destruct (Hnone (FeedEntryRecord.create_entry_for_topic sha1_hash clock
                         topic eid (sha1_hash raw))); [|done].
      apply list_elem_of_fmap. exists (eid, raw). split; [done|].
      apply list_elem_of_filter. split; [done|by apply elem_of_map_to_list].
    + unfold entry_is_update in Hupd. simpl in Hupd.
      destruct (ds !! FeedEntryRecord.create_key sha1_hash topic eid)
        as [r|] eqn:Hr; [|done].
      exists r. split; [done|]. split; [by eapply Hcons|].
      by apply dec_stable.
Qed.

(** C3.  For every (entry id, XML) pair of the parsed feed,
    [find_feed_updates] returns a record and the payload for it exactly when
    the store has no FeedEntryRecord for (topic, entry id) or has one whose
    [entry_content_hash] differs from the sha1 of the XML.  Running it again
    on the same feed content, once the records of the first run are stored,
    returns no record and no payload.  (The store is taken to hold, under the
    key of an entry id of the feed, only a record with that id, and for the
    second run the ids of the feed are taken to have distinct digests.) *)
Theorem find_feed_updates_diff_idempotent
        (sha1_hash : string → string)
        (filter_feed : string → string → option (string * gmap string string))
        (clock : Z) (topic format feed_content : string)
        (ds : FeedEntryRecord.store)
        (header_footer : string) (entries_map : gmap string string) :
  filter_feed feed_content format = Some (header_footer, entries_map) →
  (∀ eid r, is_Some (entries_map !! eid) →
     ds !! FeedEntryRecord.create_key sha1_hash topic eid = Some r →
     FeedEntryRecord.entry_id r = eid) →
  let updates :=
    filter (entry_is_update sha1_hash topic ds) (map_to_list entries_map) in
  let entities :=
    (λ item, FeedEntryRecord.create_entry_for_topic sha1_hash clock topic
               item.1 (sha1_hash item.2)) <$> updates in
  find_feed_updates sha1_hash filter_feed clock topic format feed_content ds
  = Some (header_footer, entities, updates.*2)
  ∧ (∀ eid raw, entries_map !! eid = Some raw →
       ((eid, raw) ∈ updates ↔
        ds !! FeedEntryRecord.create_key sha1_hash topic eid = None
        ∨ ∃ r, ds !! FeedEntryRecord.create_key sha1_hash topic eid = Some r
               ∧ FeedEntryRecord.entry_content_hash r
                 ≠ Some (sha1_hash raw)))
  ∧ ((∀ e1 e2, is_Some (entries_map !! e1) → is_Some (entries_map !! e2) →
        sha1_hash e1 = sha1_hash e2 → e1 = e2) →
     ∀ clock',
       find_feed_updates sha1_hash filter_feed clock' topic format
         feed_content (FeedEntryRecord.put_all entities ds)
       = Some (header_footer, [], [])).
Proof.
  intros Hfeed Hcons updates entities. split; [|split].
  - by apply find_feed_updates_filter.
  - intros eid raw Hraw. subst updates. rewrite list_elem_of_filter.
    rewrite elem_of_map_to_list. unfold entry_is_update. simpl.
    destruct (ds !! FeedEntryRecord.create_key sha1_hash topic eid) as [r|].
    + split.
      * intros [Hne _]. right. by exists r.
      * intros [?|(r' & [= <-] & Hne)]; [done|]. by split.
    + split; [by left|by split].
  - intros Hinj clock'.
    rewrite (find_feed_updates_filter sha1_hash filter_feed clock' topic
               format feed_content _ header_footer entries_map Hfeed).
    + rewrite filter_none; [done|].
      intros [eid raw] Hin%elem_of_map_to_list Hupd.
      destruct (put_all_updates_lookup sha1_hash clock topic ds entries_map
                  eid raw Hcons Hinj Hin) as (r & Hr & _ & Hhash).
      unfold entry_is_update in Hupd. simpl in Hupd.
      fold updates in Hr. fold entities in Hr. by rewrite Hr in Hupd.
    + intros eid r [raw Hraw] Hr.
      destruct (put_all_updates_lookup sha1_hash clock topic ds entries_map
                  eid raw Hcons Hinj Hraw) as (r' & Hr' & Hid & _).
      fold updates in Hr'. fold entities in Hr'. congruence.
Qed.

Lemma find_feed_updates_diff_idempotent_witness :
  let feed : gmap string string :=
    {[ "e1" := "<entry>A</entry>"; "e2" := "<entry>B</entry>" ]} in
  let filter_feed := λ _ _ : string, Some ("<feed></feed>", feed) in
  let old :=
    FeedEntryRecord.create_entry_for_topic plain_digest 1 "http://p/feed"
      "e1" (plain_digest "<entry>A</entry>") in
  let ds : FeedEntryRecord.store :=
    {[ (FeedEntryRecord.parent old, FeedEntryRecord.key_name old) := old ]} in
  ∃ entities,
    find_feed_updates plain_digest filter_feed 5 "http://p/feed" ATOM
      "<feed>...</feed>" ds
    = Some ("<feed></feed>", entities, ["<entry>B</entry>"])
    ∧ FeedEntryRecord.entry_id <$> entities = ["e2"]
    ∧ find_feed_updates plain_digest filter_feed 9 "http://p/feed" ATOM
        "<feed>...</feed>" (FeedEntryRecord.put_all entities ds)
      = Some ("<feed></feed>", [], []).
Proof.
  intros feed filter_feed old ds.
  destruct (find_feed_updates_diff_idempotent plain_digest filter_feed 5
              "http://p/feed" ATOM "<feed>...</feed>" ds "<feed></feed>" feed)
    as (Hfirst & _ & Hsecond).
  - reflexivity.
  - intros eid r _ Hr.
    apply lookup_singleton_Some in Hr as [Hkey <-].
    apply (f_equal snd), get_hash_key_name_inj in Hkey.
    unfold plain_digest in Hkey. simpl. congruence.
  - eexists. split; [|split].
    + rewrite Hfirst. vm_compute. reflexivity.
    + vm_compute. reflexivity.
    + apply Hsecond. by intros e1 e2 _ _ ?.
Defined.

(** * Further properties *)

(** ** query_and_own: the locks *)

Lemma dict_of_pairs_keyed {Model} (key : Model → string) (l : list Model) k x :
  dict_of_pairs ((λ x, (key x, x)) <$> l) !! k = Some x → key x = k ∧ x ∈ l.
Proof.
  intros H%dict_of_pairs_lookup_Some.
  by apply list_elem_of_fmap in H as (y & [= -> ->] & Hy).
Qed.

Lemma omap_lookup_keys {Model} (key : Model → string)
      (m : gmap string Model) (ks : list string) :
  (∀ k x, m !! k = Some x → key x = k) →
  (∀ k, k ∈ ks → is_Some (m !! k)) →
  key <$> omap (λ k, m !! k) ks = ks.
Proof.
  intros Hkey. induction ks as [|k ks IH]; intros Hdom; [done|].
  destruct (Hdom k (list_elem_of_here _ _)) as [x Hx].
  cbn [omap list_omap]. rewrite Hx. cbn [fmap list_fmap]. f_equal.
  - by apply Hkey.
  - apply IH. intros k' Hk'. apply Hdom. by apply list_elem_of_further.
Qed.

Lemma NoDup_take_drop_disjoint {A} (n : nat) (l : list A) x :
  NoDup l → x ∈ take n l → x ∉ drop n l.
Proof.
  intros Hnd Hin. rewrite <- (take_drop n l) in Hnd.
  apply NoDup_app in Hnd as (_ & Hdisj & _). by apply Hdisj.
Qed.

Section QueryAndOwnLocks.
Context {Model : Type} (key : Model → string)
        (gql : gmap string Model → list Model).
Context (lease_period : Z) (work_count sample_ratio lock_ratio : nat)
        (rnd : list nat) (w : World Model).

Let wm := work_map key gql work_count sample_ratio lock_ratio rnd w.
Let locked :=
  filter (λ k, k ∉ not_set_keys key gql work_count sample_ratio lock_ratio
                     rnd w) (dict_keys wm).
Let r := query_and_own key gql lease_period work_count sample_ratio
           lock_ratio rnd w.

(** The keys locked are the keys tried that memcache did not hold. *)
Lemma elem_of_locked k :
  k ∈ locked ↔ is_Some (wm !! k) ∧ cache w !! k = None.
Proof.
  unfold locked. rewrite list_elem_of_filter, elem_of_dict_keys, elem_of_dom.
  unfold not_set_keys, memcache.add_multi. cbn [fst].
  rewrite elem_of_list_to_set, list_elem_of_filter, elem_of_dict_keys.
  unfold try_lock_map. fold wm. rewrite dom_fmap, elem_of_dom.
  split.
  - intros [Hnot Hk]. split; [done|].
    destruct (cache w !! k) eqn:Hc; [|done]. destruct Hnot. by split.
  - intros [Hk Hc]. split; [|done]. rewrite Hc. by intros [[? [=]] _].
Qed.

Lemma NoDup_locked : NoDup locked.
Proof. apply NoDup_filter, NoDup_fst_map_to_list. Qed.

(** What a call that found candidates returns and leaves in memcache. *)
Lemma query_and_own_effect :
  work_to_do gql work_count sample_ratio w ≠ [] →
  returned r.1 = omap (λ k, wm !! k) (take work_count locked)
  ∧ cache r.2
    = foldr delete (cache w ∪ try_lock_map key gql work_count sample_ratio
                                 lock_ratio rnd w)
            (drop work_count locked)
  ∧ datastore r.2 = datastore w.
Proof.
  intros Hwork. subst r. unfold query_and_own.
  destruct (work_to_do gql work_count sample_ratio w) as [|c cs]; [done|].
  fold wm. fold locked. cbn [memcache.add_multi snd memcache.delete_multi].
  assert (∀ (mc : gmap string string) calls,
            (let '(mc2, calls2) :=
               match drop work_count locked with
               | [] => (mc, calls)
               | _ :: _ =>
                   (foldr delete mc (drop work_count locked),
                    memcache.DeleteMulti (drop work_count locked) :: calls)
               end in mc2)
            = foldr delete mc (drop work_count locked)) as Hmc
    by (intros mc calls; by destruct (drop work_count locked)).
  destruct (work_count =? 1)%nat eqn:Hone.
  - apply Nat.eqb_eq in Hone.
    assert (length (omap (λ k, wm !! k) (take work_count locked)) ≤ 1)%nat
      as Hlen.
    { etrans; [apply omap_length_le|]. rewrite length_take. lia. }
    destruct (drop work_count locked) eqn:Hdrop; cbn [foldr];
      (destruct (omap (λ k, wm !! k) (take work_count locked))
         as [|x [|y ys]] eqn:Hw; [done|done|simpl in Hlen; lia]).
  - by destruct (drop work_count locked).
Qed.

Lemma returned_keys :
  work_to_do gql work_count sample_ratio w ≠ [] →
  key <$> returned r.1 = take work_count locked.
Proof.
  intros Hwork. destruct (query_and_own_effect Hwork) as (-> & _).
  apply omap_lookup_keys.
  - intros k x Hx. by apply dict_of_pairs_keyed in Hx as [? _].
  - intros k Hk. eapply elem_of_sublist in Hk; [|apply sublist_take].
    by apply elem_of_locked in Hk as [? _].
Qed.

End QueryAndOwnLocks.

(** X1.  Every instance that [query_and_own] returns was not locked in
    memcache before the call and is locked, with the value ['owned'], after
    it. *)
Theorem query_and_own_returns_newly_locked
        {Model : Type} (key : Model → string)
        (gql : gmap string Model → list Model) (lease_period : Z)
        (work_count sample_ratio lock_ratio : nat) (rnd : list nat)
        (w : World Model) (x : Model) :
  let r := query_and_own key gql lease_period work_count sample_ratio
             lock_ratio rnd w in
  x ∈ returned r.1 →
  cache w !! key x = None ∧ cache r.2 !! key x = Some "owned".
Proof.
  intros r Hx. subst r.
  destruct (work_to_do gql work_count sample_ratio w) as [|c cs] eqn:Hwork.
  { unfold query_and_own in Hx. rewrite Hwork in Hx.
    destruct (work_count =? 1)%nat; by apply elem_of_nil in Hx. }
  assert (work_to_do gql work_count sample_ratio w ≠ []) as Hne
    by (by rewrite Hwork).
  pose proof (returned_keys key gql lease_period work_count sample_ratio
                lock_ratio rnd w Hne) as Hkeys.
  destruct (query_and_own_effect key gql lease_period work_count sample_ratio
              lock_ratio rnd w Hne) as (_ & Hcache & _).
  assert (key x ∈ take work_count
            (filter (λ k, k ∉ not_set_keys key gql work_count sample_ratio
                                lock_ratio rnd w)
               (dict_keys (work_map key gql work_count sample_ratio
                             lock_ratio rnd w)))) as Hin.
  { rewrite <- Hkeys. apply list_elem_of_fmap. by exists x. }
  pose proof (elem_of_sublist _ _ _ Hin (sublist_take _ _)) as Hlocked.
  apply elem_of_locked in Hlocked as [[y Hy] Hfree].
  split; [done|]. rewrite Hcache.
  rewrite lookup_foldr_delete_not_elem_of
    by (by apply NoDup_take_drop_disjoint; [apply NoDup_locked|]).
  rewrite lookup_union_r by done.
  unfold try_lock_map. by rewrite lookup_fmap, Hy.
Qed.


(** X3.  The instances that [query_and_own] returns are among the first
    [work_count * sample_ratio] results of the query, and no two of them
    have the same key. *)
Theorem query_and_own_returns_distinct_candidates
        {Model : Type} (key : Model → string)
        (gql : gmap string Model → list Model) (lease_period : Z)
        (work_count sample_ratio lock_ratio : nat) (rnd : list nat)
        (w : World Model) :
  let r := query_and_own key gql lease_period work_count sample_ratio
             lock_ratio rnd w in
  returned r.1 ⊆ take (work_count * sample_ratio) (gql (datastore w))
  ∧ NoDup (key <$> returned r.1).
Proof.
  intros r. subst r.
  destruct (work_to_do gql work_count sample_ratio w) as [|c cs] eqn:Hwork.
  { unfold query_and_own. rewrite Hwork.
    destruct (work_count =? 1)%nat; simpl;
      (split; [by intros ? ?%elem_of_nil|constructor]). }
  assert (work_to_do gql work_count sample_ratio w ≠ []) as Hne
    by (by rewrite Hwork).
  split.
  - destruct (query_and_own_effect key gql lease_period work_count
                sample_ratio lock_ratio rnd w Hne) as (Hret & _).
    rewrite Hret. intros x (k & _ & Hx)%list_elem_of_omap.
    unfold work_map in Hx. apply dict_of_pairs_keyed in Hx as [_ Hx].
    by apply sample_subseteq in Hx.
  - rewrite (returned_keys key gql lease_period work_count sample_ratio
               lock_ratio rnd w Hne).
    eapply sublist_NoDup; [|apply sublist_take]. apply NoDup_locked.
Qed.

Lemma query_and_own_returns_newly_locked_witness :
  let a := FeedToFetch.mk "hash_a" "http://p/a" 10 0 false in
  let b := FeedToFetch.mk "hash_b" "http://p/b" 20 0 false in
  let w : World FeedToFetch.t :=
    mkWorld {[ "hash_a" := a; "hash_b" := b ]}
            {[ FeedToFetch.key a := "owned" ]} [] in
  cache (FeedToFetch.get_work 100 [] w).2 !! FeedToFetch.key b = Some "owned".
Proof.
  intros a b w.
  apply (query_and_own_returns_newly_locked FeedToFetch.key
           (FeedToFetch.work_query 100) LEASE_PERIOD_SECONDS 1 20 4 [] w b).
  vm_compute. apply list_elem_of_here.
Defined.


(** ** Sorting: order *)

Lemma insert_sorted_HdRel {A} (le : A → A → bool) (y x : A) (l : list A) :
  le y x = true →
  HdRel (λ a b, le a b = true) y l →
  HdRel (λ a b, le a b = true) y (insert_sorted le x l).
Proof.
  intros Hyx Hhd. destruct l as [|z l]; simpl; [by constructor|].
  destruct (le x z); constructor; [done|]. by inversion Hhd.
Qed.

Lemma insert_sorted_Sorted {A} (le : A → A → bool) (x : A) (l : list A) :
  (∀ a b, le a b = false → le b a = true) →
  Sorted (λ a b, le a b = true) l →
  Sorted (λ a b, le a b = true) (insert_sorted le x l).
Proof.
  intros Htotal. induction l as [|y l IH]; intros Hsorted; simpl.
  - by repeat constructor.
  - destruct (le x y) eqn:Hxy.
    + constructor; [done|]. by constructor.
    + inversion Hsorted as [|? ? Hl Hhd]; subst.
      constructor; [by apply IH|].
      apply insert_sorted_HdRel; [by apply Htotal|done].
Qed.

(** [sorted_by] sorts, for a total order. *)
Lemma sorted_by_Sorted {A} (le : A → A → bool) (l : list A) :
  (∀ a b, le a b = false → le b a = true) →
  Sorted (λ a b, le a b = true) (sorted_by le l).
Proof.
  intros Htotal. induction l as [|x l IH]; simpl; [constructor|].
  by apply insert_sorted_Sorted.
Qed.

Lemma Sorted_take {A} (R : A → A → Prop) (n : nat) (l : list A) :
  Sorted R l → Sorted R (take n l).
Proof.
  revert n. induction l as [|x l IH]; intros [|n] Hs; simpl;
    [constructor..|].
  inversion Hs as [|? ? Hl Hhd]; subst. constructor; [by apply IH|].
  destruct l as [|y l]; destruct n; simpl; constructor. by inversion Hhd.
Qed.

Lemma string_leb_total_false (a b : string) :
  String.leb a b = false → String.leb b a = true.
Proof. intros H. destruct (String.leb_total a b); congruence. Qed.

(** ** Subscription: the state machine *)

Lemma put_well_keyed (clock : Z) (s : Subscription.t)
      (ds : gmap string Subscription.t) :
  well_keyed ds → well_keyed (Subscription.put clock s ds).
Proof.
  intros Hwk k s'. unfold Subscription.put.
  destruct (decide (Subscription.key_name s = k)) as [<-|Hne].
  - rewrite lookup_insert_eq. by intros [= <-].
  - rewrite lookup_insert_ne by done. apply Hwk.
Qed.

(** X4.  [Subscription.insert] returns [True] exactly when no entity existed.
    Afterwards the entity of (callback, topic) exists in the state
    [STATE_VERIFIED]: a new one, or the old one with only its state and
    write time changed.  No other entity is touched, and inserting again
    returns [False] and changes the write time only. *)
Theorem insert_forces_verified
        (sha1_hash : string → string) (clock : Z) (callback topic : string)
        (ds : gmap string Subscription.t) :
  well_keyed ds →
  let k := Subscription.create_key_name sha1_hash callback topic in
  let r := Subscription.insert sha1_hash clock callback topic ds in
  (r.1 = true ↔ ds !! k = None)
  ∧ (∃ sub,
       r.2 !! k = Some sub
       ∧ Subscription.subscription_state sub = Subscription.STATE_VERIFIED
       ∧ (ds !! k = None →
          sub = Subscription.set_subscription_state
                  Subscription.STATE_VERIFIED
                  (Subscription.new sha1_hash clock callback topic None))
       ∧ (∀ old, ds !! k = Some old →
            sub = Subscription.set_last_modified clock
                    (Subscription.set_subscription_state
                       Subscription.STATE_VERIFIED old))
       ∧ ∀ clock',
           Subscription.insert sha1_hash clock' callback topic r.2
           = (false, <[k := Subscription.set_last_modified clock' sub]> r.2))
  ∧ (∀ k', k' ≠ k → r.2 !! k' = ds !! k').
Proof.
  intros Hwk k r. subst r. unfold Subscription.insert. fold k.
  destruct (ds !! k) as [old|] eqn:Hold; cbn [fst snd].
  - pose proof (Hwk k old Hold) as Hkey.
    split; [done|]. split.
    + eexists. unfold Subscription.put. cbn [Subscription.key_name
        Subscription.set_subscription_state Subscription.set_last_modified].
      rewrite Hkey, lookup_insert_eq.
      split; [reflexivity|]. split; [done|]. split; [done|].
      split; [by intros ? [= <-]|]. intros clock'.
      unfold Subscription.insert. fold k. rewrite ?lookup_insert_eq.
      unfold Subscription.put. cbn [Subscription.key_name
        Subscription.set_subscription_state Subscription.set_last_modified].
      rewrite ?Hkey. reflexivity.
    + intros k' Hne. unfold Subscription.put.
      cbn [Subscription.key_name Subscription.set_subscription_state
           Subscription.set_last_modified].
      rewrite Hkey. by rewrite lookup_insert_ne.
  - split; [done|]. split.
    + eexists. unfold Subscription.put. cbn [Subscription.key_name
        Subscription.set_subscription_state Subscription.set_last_modified
        Subscription.new].
      fold k. rewrite lookup_insert_eq.
      split; [reflexivity|]. split; [done|]. split; [done|].
      split; [done|]. intros clock'.
      unfold Subscription.insert. fold k. rewrite ?lookup_insert_eq.
      unfold Subscription.put. cbn [Subscription.key_name
        Subscription.set_subscription_state Subscription.set_last_modified
        Subscription.new].
      reflexivity.
    + intros k' Hne. unfold Subscription.put.
      cbn [Subscription.key_name Subscription.set_subscription_state
           Subscription.set_last_modified Subscription.new].
      fold k. by rewrite lookup_insert_ne.
Qed.

Lemma insert_forces_verified_witness :
  let pending :=
    Subscription.new plain_digest 5 "http://s/cb" "http://p/feed"
      (Some "tok1") in
  let ds : gmap string Subscription.t :=
    {[ Subscription.key_name pending := pending ]} in
  (Subscription.insert plain_digest 9 "http://s/cb" "http://p/feed" ds).2
    !! Subscription.create_key_name plain_digest "http://s/cb" "http://p/feed"
  = Some (Subscription.set_last_modified 9
            (Subscription.set_subscription_state Subscription.STATE_VERIFIED
               pending)).
Proof.
  intros pending ds.
  destruct (insert_forces_verified plain_digest 9 "http://s/cb"
              "http://p/feed" ds) as (_ & (sub & Hsub & _ & _ & Hold & _) & _).
  - intros k s [<- <-]%lookup_singleton_Some. reflexivity.
  - rewrite Hsub. f_equal. apply Hold. apply lookup_singleton_eq.
Defined.

(** X5.  [Subscription.request_remove] returns [True] exactly when an entity
    exists that is not yet in the state [STATE_TO_DELETE]; it then moves it
    to that state with the given verify token.  When it returns [False] the
    store is unchanged.  After any call, a further call returns [False] and
    changes nothing, whatever its token. *)
Theorem request_remove_once
        (sha1_hash : string → string) (clock : Z)
        (callback topic verify_token : string)
        (ds : gmap string Subscription.t) :
  well_keyed ds →
  let k := Subscription.create_key_name sha1_hash callback topic in
  let r := Subscription.request_remove sha1_hash clock callback topic
             verify_token ds in
  (r.1 = true ↔
   ∃ s, ds !! k = Some s
        ∧ Subscription.subscription_state s ≠ Subscription.STATE_TO_DELETE)
  ∧ (r.1 = true →
     ∃ s', r.2 !! k = Some s'
           ∧ Subscription.subscription_state s'
             = Subscription.STATE_TO_DELETE
           ∧ Subscription.verify_token s' = Some verify_token)
  ∧ (r.1 = false → r.2 = ds)
  ∧ (∀ k', k' ≠ k → r.2 !! k' = ds !! k')
  ∧ (∀ clock' verify_token',
       Subscription.request_remove sha1_hash clock' callback topic
         verify_token' r.2 = (false, r.2)).
Proof.
  intros Hwk k r. subst r. unfold Subscription.request_remove. fold k.
  destruct (ds !! k) as [s|] eqn:Hs.
  - pose proof (Hwk k s Hs) as Hkey.
    destruct (Subscription.subscription_state s) eqn:Hstate; cbn [fst snd];
      unfold Subscription.put;
      cbn [Subscription.key_name Subscription.set_subscription_state
           Subscription.set_last_modified Subscription.set_verify_token];
      rewrite ?Hkey, ?lookup_insert_eq, ?Hs;
      cbn [Subscription.subscription_state]; rewrite ?Hstate.
    + split; [split; [intros _; exists s; split; [done|congruence]|done]|].
      split; [intros _; by eexists|]. split; [done|].
      split; [by intros; rewrite lookup_insert_ne|done].
    + split; [split; [intros _; exists s; split; [done|congruence]|done]|].
      split; [intros _; by eexists|]. split; [done|].
      split; [by intros; rewrite lookup_insert_ne|done].
    + split; [split; [done|by intros (? & [= <-] & ?)]|].
      split; [done|]. split; [done|]. split; [done|done].
  - cbn [fst snd]. rewrite Hs.
    split; [split; [done|by intros (? & ? & _)]|]. done.
Qed.

Lemma request_remove_once_witness :
  let verified :=
    Subscription.set_subscription_state Subscription.STATE_VERIFIED
      (Subscription.new plain_digest 5 "http://s/cb" "http://p/feed" None) in
  let ds : gmap string Subscription.t :=
    {[ Subscription.key_name verified := verified ]} in
  let r := Subscription.request_remove plain_digest 7 "http://s/cb"
             "http://p/feed" "tok2" ds in
  r.1 = true
  ∧ Subscription.request_remove plain_digest 8 "http://s/cb" "http://p/feed"
      "tok3" r.2 = (false, r.2).
Proof.
  intros verified ds r.
  destruct (request_remove_once plain_digest 7 "http://s/cb" "http://p/feed"
              "tok2" ds) as (Htrue & _ & _ & _ & Hagain).
  - intros k s [<- <-]%lookup_singleton_Some. reflexivity.
  - split; [|apply Hagain].
    apply Htrue. exists verified. split; [apply lookup_singleton_eq|].
    discriminate.
Defined.

(** X6.  [Subscription.remove] returns [True] exactly when the entity
    existed; afterwards it does not exist and no other entity is touched.
    Removing what [insert] has just created gives the store back. *)
Theorem remove_deletes
        (sha1_hash : string → string) (callback topic : string)
        (ds : gmap string Subscription.t) :
  let k := Subscription.create_key_name sha1_hash callback topic in
  let r := Subscription.remove sha1_hash callback topic ds in
  (r.1 = true ↔ is_Some (ds !! k))
  ∧ r.2 !! k = None
  ∧ (∀ k', k' ≠ k → r.2 !! k' = ds !! k')
  ∧ (ds !! k = None →
     ∀ clock,
       Subscription.remove sha1_hash callback topic
         (Subscription.insert sha1_hash clock callback topic ds).2
       = (true, ds)).
Proof.
  intros k r. subst r. unfold Subscription.remove. fold k.
  split; [|split; [|split]].
  - destruct (ds !! k) eqn:Hk; cbn [fst]; [by split; eauto|].
    split; [done|by intros [? ?]].
  - destruct (ds !! k) eqn:Hk; cbn [snd]; [apply lookup_delete_eq|done].
  - intros k' Hne. destruct (ds !! k); cbn [snd]; [|done].
    by rewrite lookup_delete_ne.
  - intros Hnone clock. unfold Subscription.insert. fold k. rewrite Hnone.
    cbn [snd]. unfold Subscription.put.
    cbn [Subscription.key_name Subscription.set_subscription_state
         Subscription.set_last_modified Subscription.new].
    fold k. rewrite lookup_insert_eq. by rewrite delete_insert_id.
Qed.

Lemma remove_deletes_witness :
  Subscription.remove plain_digest "http://s/cb" "http://p/feed"
    (Subscription.insert plain_digest 3 "http://s/cb" "http://p/feed" ∅).2
  = (true, ∅).
Proof.
  destruct (remove_deletes plain_digest "http://s/cb" "http://p/feed" ∅)
    as (_ & _ & _ & Hround).
  apply Hround. apply lookup_empty.
Defined.

(** ** Subscription: confirmation retries *)

Lemma confirm_fail_repeatedly_run (nows : list Z) (name : string) :
  ∀ (ds : gmap string Subscription.t) (s : Subscription.t),
    ds !! name = Some s →
    Subscription.key_name s = name →
    (0 ≤ Subscription.confirm_failures s
     ≤ MAX_SUBSCRIPTION_CONFIRM_FAILURES)%Z →
    let final := confirm_fail_repeatedly nows name ds in
    (is_Some (final !! name) ↔
     (Subscription.confirm_failures s + Z.of_nat (length nows)
      ≤ MAX_SUBSCRIPTION_CONFIRM_FAILURES)%Z)
    ∧ (∀ s', final !! name = Some s' →
         Subscription.confirm_failures s'
         = (Subscription.confirm_failures s + Z.of_nat (length nows))%Z
         ∧ Subscription.eta s'
           = match last nows with
             | Some now =>
                 (now + SUBSCRIPTION_RETRY_PERIOD
                        * 2 ^ (Subscription.confirm_failures s'  - 1))%Z
             | None => Subscription.eta s
             end
         ∧ Subscription.subscription_state s'
           = Subscription.subscription_state s).
Proof.
  unfold MAX_SUBSCRIPTION_CONFIRM_FAILURES.
  induction nows as [|now nows IH]; intros ds s Hs Hname Hrange; cbv zeta.
  - simpl. rewrite Hs. split.
    + split; [intros _; lia|by eauto].
    + intros s' [= <-]. split; [lia|done].
  - cbn [confirm_fail_repeatedly]. rewrite Hs.
    unfold Subscription.confirm_failed, MAX_SUBSCRIPTION_CONFIRM_FAILURES.
    destruct (10 <=? Subscription.confirm_failures s)%Z eqn:Hcap.
    + apply Z.leb_le in Hcap.
      assert (confirm_fail_repeatedly nows name
                (delete (Subscription.key_name s) ds) !! name = None) as Hgone.
      { rewrite Hname. destruct nows; simpl; rewrite lookup_delete_eq; [done|].
        apply lookup_delete_eq. }
      rewrite Hgone. split; [|done].
      split; [by intros [? ?]|]. rewrite length_cons. lia.
    + apply Z.leb_gt in Hcap.
      set (s1 := Subscription.set_confirm_failures _ _).
      destruct (IH (Subscription.put now s1 ds)
                   (Subscription.set_last_modified now s1)) as [Hsome Hfinal].
      * unfold Subscription.put. subst s1. cbn [Subscription.key_name
          Subscription.set_confirm_failures Subscription.set_eta].
        rewrite Hname. apply lookup_insert_eq.
      * done.
      * subst s1. simpl. lia.
      * split.
        -- rewrite Hsome. subst s1. simpl Subscription.confirm_failures.
           rewrite length_cons. lia.
        -- intros s' Hs'. destruct (Hfinal s' Hs') as (Hcount & Heta & Hstate).
           subst s1. simpl Subscription.confirm_failures in *.
           simpl Subscription.subscription_state in *.
           simpl Subscription.eta in *.
           split; [rewrite length_cons; lia|]. split; [|done].
           rewrite Heta. destruct nows as [|now' nows];
             [|change (last (now :: now' :: nows)) with (last (now' :: nows));
               destruct (last (now' :: nows)) eqn:Hl;
               [done|by apply last_None in Hl]].
           simpl. simpl in Hcount. rewrite Hcount.
           unfold SUBSCRIPTION_RETRY_PERIOD. do 3 f_equal. lia.
Qed.

(** X7.  A subscription that starts with [confirm_failures] 0 survives a run
    of consecutive calls of [confirm_failed] exactly when the run has at most
    ten of them: the eleventh deletes it.  While it survives, its counter is
    the number of failures, its state is unchanged, and its [eta] is the time
    of the last failure plus [300 * 2^(failures - 1)] seconds. *)
Theorem confirm_failed_gives_up_on_eleventh
        (nows : list Z) (name : string) (ds : gmap string Subscription.t)
        (s : Subscription.t) :
  ds !! name = Some s →
  Subscription.key_name s = name →
  Subscription.confirm_failures s = 0%Z →
  let final := confirm_fail_repeatedly nows name ds in
  (is_Some (final !! name) ↔ (length nows ≤ 10)%nat)
  ∧ (∀ s' now, final !! name = Some s' → last nows = Some now →
       Subscription.confirm_failures s' = Z.of_nat (length nows)
       ∧ Subscription.eta s'
         = (now + SUBSCRIPTION_RETRY_PERIOD
                  * 2 ^ (Z.of_nat (length nows) - 1))%Z
       ∧ Subscription.subscription_state s'
         = Subscription.subscription_state s).
Proof.
  intros Hs Hname Hzero final.
  destruct (confirm_fail_repeatedly_run nows name ds s Hs Hname)
    as [Hsome Hfinal].
  { rewrite Hzero. unfold MAX_SUBSCRIPTION_CONFIRM_FAILURES. lia. }
  fold final in Hsome, Hfinal. split.
  - rewrite Hsome, Hzero. unfold MAX_SUBSCRIPTION_CONFIRM_FAILURES. lia.
  - intros s' now Hs' Hlast.
    destruct (Hfinal s' Hs') as (Hcount & Heta & Hstate).
    rewrite Hzero in Hcount. rewrite Hlast, Hcount in Heta.
    split; [lia|]. split; [|done]. by rewrite Heta.
Qed.

Lemma confirm_failed_gives_up_on_eleventh_witness :
  let s := Subscription.new plain_digest 0 "http://s/cb" "http://p/feed"
             (Some "tok1") in
  let ds : gmap string Subscription.t := {[ Subscription.key_name s := s ]} in
  is_Some (confirm_fail_repeatedly [1; 2; 3; 4; 5; 6; 7; 8; 9; 10]%Z
             (Subscription.key_name s) ds !! Subscription.key_name s)
  ∧ ¬ is_Some (confirm_fail_repeatedly [1; 2; 3; 4; 5; 6; 7; 8; 9; 10; 11]%Z
                 (Subscription.key_name s) ds !! Subscription.key_name s).
Proof.
  intros s ds. split.
  - apply (confirm_failed_gives_up_on_eleventh
             [1; 2; 3; 4; 5; 6; 7; 8; 9; 10]%Z (Subscription.key_name s) ds s);
      [apply lookup_singleton_eq|reflexivity|reflexivity|simpl; lia].
  - intros Hsome.
    apply (confirm_failed_gives_up_on_eleventh
             [1; 2; 3; 4; 5; 6; 7; 8; 9; 10; 11]%Z (Subscription.key_name s)
             ds s) in Hsome;
      [simpl in Hsome; lia|apply lookup_singleton_eq|reflexivity|reflexivity].
Defined.

(** ** Subscription: queries *)

#[local] Existing Instance Subscription.state_eq_dec.

Lemma elem_of_map_to_list_values {V} (m : gmap string V) (v : V) :
  v ∈ (map_to_list m).*2 ↔ ∃ k, m !! k = Some v.
Proof.
  rewrite list_elem_of_fmap. split.
  - intros ([k v'] & -> & Hin%elem_of_map_to_list). by exists k.
  - intros [k Hk]. exists (k, v). split; [done|by apply elem_of_map_to_list].
Qed.

(** X8.  [Subscription.get_subscribers] returns at most [count]
    subscriptions, in ascending order of [callback_hash]; each is a stored,
    verified subscription of the topic whose callback hash is at least the
    hash of [starting_at_callback] when that is not empty.  When it returns
    fewer than [count], it has left out no such subscription. *)
Theorem get_subscribers_ordered_page
        (sha1_hash : string → string) (topic : string) (count : nat)
        (starting_at_callback : string) (ds : gmap string Subscription.t) :
  let matches s :=
    Subscription.topic_hash s = sha1_hash topic
    ∧ Subscription.subscription_state s = Subscription.STATE_VERIFIED
    ∧ (starting_at_callback = EmptyString
       ∨ String.leb (sha1_hash starting_at_callback)
           (Subscription.callback_hash s) = true) in
  let l := Subscription.get_subscribers sha1_hash topic count
             starting_at_callback ds in
  (length l ≤ count)%nat
  ∧ Sorted (λ a b, String.leb (Subscription.callback_hash a)
                              (Subscription.callback_hash b) = true) l
  ∧ (∀ s, s ∈ l → matches s ∧ ∃ k, ds !! k = Some s)
  ∧ ((length l < count)%nat →
     ∀ k s, ds !! k = Some s → matches s → s ∈ l).
Proof.
  intros matches l. subst l. unfold Subscription.get_subscribers.
  fold matches.
  set (sorted := sorted_by _ (filter matches (map_to_list ds).*2)).
  split; [rewrite length_take; lia|]. split; [|split].
  - apply Sorted_take, sorted_by_Sorted.
    intros a b. apply string_leb_total_false.
  - intros s Hs. eapply elem_of_sublist in Hs; [|apply sublist_take].
    subst sorted. apply elem_of_sorted_by, list_elem_of_filter in Hs as [Hm Hs].
    split; [done|]. by apply elem_of_map_to_list_values.
  - intros Hshort k s Hk Hm. rewrite length_take in Hshort.
    rewrite take_ge by lia. subst sorted.
    apply elem_of_sorted_by, list_elem_of_filter. split; [done|].
    apply elem_of_map_to_list_values. by exists k.
Qed.

Lemma get_subscribers_ordered_page_witness :
  let sub cb :=
    Subscription.set_subscription_state Subscription.STATE_VERIFIED
      (Subscription.new plain_digest 0 cb "http://p/feed" None) in
  let ds : gmap string Subscription.t :=
    {[ Subscription.key_name (sub "http://s/b") := sub "http://s/b";
       Subscription.key_name (sub "http://s/a") := sub "http://s/a" ]} in
  sub "http://s/b"
  ∈ Subscription.get_subscribers plain_digest "http://p/feed" 5 EmptyString
      ds.
Proof.
  intros sub ds.
  destruct (get_subscribers_ordered_page plain_digest "http://p/feed" 5
              EmptyString ds) as (_ & _ & _ & Hall).
  apply (Hall ltac:(vm_compute; lia) (Subscription.key_name (sub "http://s/b"))).
  - vm_compute. reflexivity.
  - split; [reflexivity|]. split; [reflexivity|by left].
Defined.

(** X9.  [Subscription.has_subscribers] holds exactly when
    [get_subscribers], asked for at least one subscriber from the beginning,
    returns one. *)
Theorem has_subscribers_iff_get_subscribers
        (sha1_hash : string → string) (topic : string) (n : nat)
        (ds : gmap string Subscription.t) :
  Subscription.has_subscribers sha1_hash topic ds = true
  ↔ Subscription.get_subscribers sha1_hash topic (S n) EmptyString ds ≠ [].
Proof.
  unfold Subscription.has_subscribers, Subscription.get_subscribers.
  set (l := (map_to_list ds).*2).
  rewrite (list_filter_iff
             (λ s, Subscription.topic_hash s = sha1_hash topic
                   ∧ Subscription.subscription_state s
                     = Subscription.STATE_VERIFIED
                   ∧ (EmptyString = EmptyString
                      ∨ String.leb (sha1_hash EmptyString)
                          (Subscription.callback_hash s) = true))
             (λ s, Subscription.topic_hash s = sha1_hash topic
                   ∧ Subscription.subscription_state s
                     = Subscription.STATE_VERIFIED))
    by (intros s; split;
        [intros (? & ? & _); by split
        |intros [? ?]; split; [done|split; [done|by left]]]).
  set (found := filter _ l).
  pose proof (sorted_by_Permutation
                (λ a b, String.leb (Subscription.callback_hash a)
                                   (Subscription.callback_hash b)) found)
    as Hperm.
  destruct found as [|s found'].
  - simpl. split; [done|]. by intros [].
  - split; [|done]. intros _ Hnil.
    apply (f_equal length) in Hnil. rewrite length_take in Hnil.
    rewrite (Permutation_length Hperm) in Hnil. simpl in Hnil. lia.
Qed.

Lemma confirm_query_ready now (ds : gmap string Subscription.t) s :
  s ∈ Subscription_confirm_query now ds →
  Subscription.subscription_state s ≠ Subscription.STATE_VERIFIED
  ∧ (Subscription.eta s ≤ now)%Z
  ∧ ∃ k, ds !! k = Some s.
Proof.
  unfold Subscription_confirm_query. rewrite elem_of_sorted_by.
  intros [Hready Hs]%list_elem_of_filter.
  unfold Subscription_confirm_ready in Hready.
  apply andb_true_iff in Hready as [Heta Hstate].
  split; [by destruct (Subscription.subscription_state s)|].
  split; [by apply Z.leb_le|]. by apply elem_of_map_to_list_values.
Qed.

(** X10.  [Subscription.get_confirm_work] returns [None] or one stored
    subscription; what it returns is never in the state [STATE_VERIFIED] and
    never has an [eta] after the current time.  The datastore is as
    before. *)
Theorem get_confirm_work_returns_pending
        (now : Z) (rnd : list nat) (w : World Subscription.t) :
  let r := Subscription_get_confirm_work now rnd w in
  match r.1 with
  | RNone => True
  | ROne s =>
      Subscription.subscription_state s ≠ Subscription.STATE_VERIFIED
      ∧ (Subscription.eta s ≤ now)%Z
      ∧ ∃ k, datastore w !! k = Some s
  | RList _ => False
  end
  ∧ datastore r.2 = datastore w.
Proof.
  intros r. subst r. unfold Subscription_get_confirm_work.
  split; [|apply query_and_own_datastore].
  destruct (query_and_own_shape_one Subscription_key
              (Subscription_confirm_query now) LEASE_PERIOD_SECONDS 20 4 rnd w)
    as [Hnone|[s Hone]].
  - by rewrite Hnone.
  - rewrite Hone. apply query_and_own_one_from_query in Hone.
    by apply confirm_query_ready.
Qed.

(** ** FeedToFetch: insertion and the backoff run *)

(** X11.  After [FeedToFetch.insert], every topic of the list has an entity
    under its hash key with [fetching_failures] 0, [totally_failed] false and
    [eta] the time of the insertion, whatever the store held there before;
    from that time on the entity is among the results of the query of
    [get_work].  Entities under other keys are untouched. *)
Theorem feed_insert_resets
        (sha1_hash : string → string) (clock : Z) (topic_list : list string)
        (ds : gmap string FeedToFetch.t) :
  let ds' := FeedToFetch.insert sha1_hash clock topic_list ds in
  (∀ topic, topic ∈ topic_list →
     ∃ f, ds' !! get_hash_key_name sha1_hash topic = Some f
          ∧ FeedToFetch.key_name f = get_hash_key_name sha1_hash topic
          ∧ FeedToFetch.topic f ∈ topic_list
          ∧ sha1_hash (FeedToFetch.topic f) = sha1_hash topic
          ∧ FeedToFetch.eta f = clock
          ∧ FeedToFetch.fetching_failures f = 0%Z
          ∧ FeedToFetch.totally_failed f = false
          ∧ ∀ now, (clock ≤ now)%Z → f ∈ FeedToFetch.work_query now ds')
  ∧ (∀ k, (∀ topic, topic ∈ topic_list →
                    get_hash_key_name sha1_hash topic ≠ k) →
          ds' !! k = ds !! k).
Proof.
  intros ds'. split.
  - intros topic Hin.
    assert (∃ f, ds' !! get_hash_key_name sha1_hash topic = Some f
                 ∧ FeedToFetch.key_name f = get_hash_key_name sha1_hash topic
                 ∧ FeedToFetch.topic f ∈ topic_list
                 ∧ sha1_hash (FeedToFetch.topic f) = sha1_hash topic
                 ∧ FeedToFetch.eta f = clock
                 ∧ FeedToFetch.fetching_failures f = 0%Z
                 ∧ FeedToFetch.totally_failed f = false) as Hf.
    { subst ds'. induction topic_list as [|t ts IH]; [by apply elem_of_nil in Hin|].
      cbn [FeedToFetch.insert foldr]. unfold FeedToFetch.put at 1.
      cbn [FeedToFetch.key_name].
      destruct (decide (get_hash_key_name sha1_hash t
                        = get_hash_key_name sha1_hash topic)) as [Heq|Hne].
      - rewrite Heq, lookup_insert_eq. eexists. split; [reflexivity|].
        simpl. split; [done|]. split; [apply list_elem_of_here|].
        split; [by apply get_hash_key_name_inj|done].
      - rewrite lookup_insert_ne by done.
        apply elem_of_cons in Hin as [->|Hin]; [done|].
        destruct (IH Hin) as (f & Hf & Hk & Ht & Hrest).
        exists f. split; [done|]. split; [done|].
        split; [by apply list_elem_of_further|done]. }
    destruct Hf as (f & Hf & Hk & Ht & Hs & Heta & Hff & Htf).
    exists f. repeat (split; [done|]).
    intros now Hnow. unfold FeedToFetch.work_query.
    apply elem_of_sorted_by, list_elem_of_filter. split.
    + unfold FeedToFetch.ready. rewrite Heta, Htf.
      by rewrite (proj2 (Z.leb_le _ _) Hnow).
    + apply elem_of_map_to_list_values. by eexists.
  - intros k Hk. subst ds'.
    induction topic_list as [|t ts IH]; [done|].
    cbn [FeedToFetch.insert foldr]. unfold FeedToFetch.put at 1.
    cbn [FeedToFetch.key_name].
    rewrite lookup_insert_ne by (apply Hk, list_elem_of_here).
    apply IH. intros topic Hin. by apply Hk, list_elem_of_further.
Qed.

Lemma feed_insert_resets_witness :
  let dead := FeedToFetch.mk "hash_http://p/a" "http://p/a" 900 9 true in
  let ds : gmap string FeedToFetch.t := {[ "hash_http://p/a" := dead ]} in
  ∃ f, FeedToFetch.insert plain_digest 1000 ["http://p/a"] ds
         !! "hash_http://p/a" = Some f
       ∧ FeedToFetch.totally_failed f = false
       ∧ FeedToFetch.fetching_failures f = 0%Z.
Proof.
  intros dead ds.
  destruct (feed_insert_resets plain_digest 1000 ["http://p/a"] ds)
    as [Hreset _].
  destruct (Hreset "http://p/a" (list_elem_of_here _ _))
    as (f & Hf & _ & _ & _ & _ & Hff & Htf & _).
  exists f. split; [exact Hf|]. split; [exact Htf|exact Hff].
Defined.

Lemma fail_repeatedly_run (nows : list Z) (name : string) :
  ∀ (ds : gmap string FeedToFetch.t) (f : FeedToFetch.t),
    ds !! name = Some f →
    FeedToFetch.key_name f = name →
    (0 ≤ FeedToFetch.fetching_failures f)%Z →
    (FeedToFetch.fetching_failures f + Z.of_nat (length nows)
     ≤ MAX_FEED_PULL_FAILURES)%Z →
    ∃ f', FeedToFetch.fail_repeatedly nows name ds !! name = Some f'
          ∧ FeedToFetch.key_name f' = name
          ∧ FeedToFetch.topic f' = FeedToFetch.topic f
          ∧ FeedToFetch.totally_failed f' = FeedToFetch.totally_failed f
          ∧ FeedToFetch.fetching_failures f'
            = (FeedToFetch.fetching_failures f + Z.of_nat (length nows))%Z
          ∧ FeedToFetch.eta f'
            = match last nows with
              | Some now =>
                  (now + FEED_PULL_RETRY_PERIOD
                         * 2 ^ (FeedToFetch.fetching_failures f' - 1))%Z
              | None => FeedToFetch.eta f
              end.
Proof.
  unfold MAX_FEED_PULL_FAILURES.
  induction nows as [|now nows IH]; intros ds f Hf Hname Hpos Hcap.
  - exists f. simpl. repeat (split; [done|]). split; [lia|done].
  - cbn [FeedToFetch.fail_repeatedly]. rewrite Hf.
    rewrite length_cons in Hcap.
    unfold FeedToFetch.fetch_failed, MAX_FEED_PULL_FAILURES.
    rewrite (proj2 (Z.leb_gt 9 (FeedToFetch.fetching_failures f))) by lia.
    cbn [snd FeedToFetch.key_name FeedToFetch.topic FeedToFetch.eta
         FeedToFetch.fetching_failures FeedToFetch.totally_failed].
    set (f1 := FeedToFetch.mk _ _ _ _ _).
    destruct (IH (FeedToFetch.put f1 ds) f1)
      as (f' & Hf' & Hk' & Ht' & Htf' & Hff' & Heta').
    + unfold FeedToFetch.put. subst f1. cbn [FeedToFetch.key_name].
      rewrite Hname. apply lookup_insert_eq.
    + done.
    + subst f1. simpl. lia.
    + subst f1. simpl. lia.
    + exists f'. subst f1.
      cbn [FeedToFetch.key_name FeedToFetch.topic FeedToFetch.eta
           FeedToFetch.fetching_failures FeedToFetch.totally_failed] in *.
      repeat (split; [done|]). split; [rewrite length_cons; lia|].
      rewrite Heta'. destruct nows as [|now' nows].
      * simpl. simpl in Hff'. rewrite Hff'. do 3 f_equal. lia.
      * change (last (now :: now' :: nows)) with (last (now' :: nows)).
        destruct (last (now' :: nows)) eqn:Hl;
          [done|by apply last_None in Hl].
Qed.

Lemma fetch_failed_at_cap_only_marks (now : Z) (f : FeedToFetch.t)
      (ds : gmap string FeedToFetch.t) :
  (MAX_FEED_PULL_FAILURES ≤ FeedToFetch.fetching_failures f)%Z →
  FeedToFetch.fetch_failed MAX_FEED_PULL_FAILURES FEED_PULL_RETRY_PERIOD now
    f ds
  = (FeedToFetch.mk (FeedToFetch.key_name f) (FeedToFetch.topic f)
       (FeedToFetch.eta f) (FeedToFetch.fetching_failures f) true,
     <[FeedToFetch.key_name f :=
         FeedToFetch.mk (FeedToFetch.key_name f) (FeedToFetch.topic f)
           (FeedToFetch.eta f) (FeedToFetch.fetching_failures f) true]> ds).
Proof.
  intros Hcap. unfold FeedToFetch.fetch_failed.
  by rewrite (proj2 (Z.leb_le _ _) Hcap).
Qed.

(** X12.  The backoff of feed pulls: from a counter of zero, a run of at most
    nine consecutive failures leaves [fetching_failures] at the number of
    failures and [eta] at the time of the last one plus
    [60 * 2^(failures - 1)] seconds.  After nine failures, further ones change
    neither the counter nor [eta]. *)
Theorem fetch_failed_backoff_law
        (nows more : list Z) (name : string)
        (ds : gmap string FeedToFetch.t) (f : FeedToFetch.t) :
  ds !! name = Some f →
  FeedToFetch.key_name f = name →
  FeedToFetch.fetching_failures f = 0%Z →
  (∀ now, (length nows ≤ 9)%nat → last nows = Some now →
     ∃ f', FeedToFetch.fail_repeatedly nows name ds !! name = Some f'
           ∧ FeedToFetch.fetching_failures f' = Z.of_nat (length nows)
           ∧ FeedToFetch.eta f'
             = (now + FEED_PULL_RETRY_PERIOD
                      * 2 ^ (Z.of_nat (length nows) - 1))%Z)
  ∧ (length nows = 9%nat →
     ∃ f' f'',
       FeedToFetch.fail_repeatedly nows name ds !! name = Some f'
       ∧ FeedToFetch.fail_repeatedly (nows ++ more) name ds !! name
         = Some f''
       ∧ FeedToFetch.fetching_failures f'' = FeedToFetch.fetching_failures f'
       ∧ FeedToFetch.eta f'' = FeedToFetch.eta f').
Proof.
  intros Hf Hname Hzero. split.
  - intros now Hlen Hlast.
    destruct (fail_repeatedly_run nows name ds f Hf Hname)
      as (f' & Hf' & _ & _ & _ & Hff' & Heta').
    { lia. }
    { rewrite Hzero. unfold MAX_FEED_PULL_FAILURES. lia. }
    exists f'. split; [done|]. rewrite Hzero in Hff'.
    split; [lia|]. by rewrite Heta', Hlast, Hff'.
  - intros Hlen.
    destruct (fail_repeatedly_run nows name ds f Hf Hname)
      as (f' & Hf' & Hk' & _ & _ & Hff' & _).
    { lia. }
    { rewrite Hzero. unfold MAX_FEED_PULL_FAILURES. lia. }
    rewrite Hzero, Hlen in Hff'. exists f'.
    assert (∀ more (ds1 : gmap string FeedToFetch.t) f1,
              ds1 !! name = Some f1 →
              FeedToFetch.key_name f1 = name →
              FeedToFetch.fetching_failures f1 = 9%Z →
              ∃ f2, FeedToFetch.fail_repeatedly more name ds1 !! name
                    = Some f2
                    ∧ FeedToFetch.fetching_failures f2 = 9%Z
                    ∧ FeedToFetch.eta f2 = FeedToFetch.eta f1) as Hfrozen.
    { clear. induction more as [|now more IH]; intros ds1 f1 Hf1 Hk1 Hnine.
      - exists f1. by simpl.
      - cbn [FeedToFetch.fail_repeatedly]. rewrite Hf1.
        rewrite fetch_failed_at_cap_only_marks
          by (rewrite Hnine; unfold MAX_FEED_PULL_FAILURES; lia).
        cbn [snd]. rewrite Hk1.
        destruct (IH (<[name := FeedToFetch.mk name (FeedToFetch.topic f1)
                                 (FeedToFetch.eta f1)
                                 (FeedToFetch.fetching_failures f1) true]> ds1)
                     (FeedToFetch.mk name (FeedToFetch.topic f1)
                        (FeedToFetch.eta f1)
                        (FeedToFetch.fetching_failures f1) true))
          as (f2 & Hf2 & Hff2 & Heta2);
          [apply lookup_insert_eq|done|done|].
        exists f2. by repeat split. }
    assert (∀ l1 l2 (ds0 : gmap string FeedToFetch.t),
              is_Some (FeedToFetch.fail_repeatedly l1 name ds0 !! name) →
              FeedToFetch.fail_repeatedly (l1 ++ l2) name ds0
              = FeedToFetch.fail_repeatedly l2 name
                  (FeedToFetch.fail_repeatedly l1 name ds0)) as Happ.
    { clear. induction l1 as [|now l1 IH]; intros l2 ds0 Hsome; [done|].
      cbn [app FeedToFetch.fail_repeatedly] in *.
      destruct (ds0 !! name) as [f0|] eqn:Hf0.
      - by apply IH.
      - rewrite Hf0 in Hsome. by destruct Hsome. }
    rewrite Happ by (by rewrite Hf').
    destruct (Hfrozen more (FeedToFetch.fail_repeatedly nows name ds) f'
                Hf' Hk') as (f2 & Hf2 & Hff2 & Heta2); [lia|].
    exists f2. split; [done|]. split; [done|]. split; [lia|done].
Qed.

Lemma fetch_failed_backoff_law_witness :
  let f := FeedToFetch.mk "hash_a" "http://p/a" 0 0 false in
  let ds : gmap string FeedToFetch.t := {[ "hash_a" := f ]} in
  ∃ f', FeedToFetch.fail_repeatedly [100; 200; 300]%Z "hash_a" ds !! "hash_a"
        = Some f'
        ∧ FeedToFetch.eta f' = (300 + 60 * 4)%Z.
Proof.
  intros f ds.
  destruct (fetch_failed_backoff_law [100; 200; 300]%Z [] "hash_a" ds f)
    as [Hlaw _]; [reflexivity..|].
  destruct (Hlaw 300%Z) as (f' & Hf' & _ & Heta); [simpl; lia|reflexivity|].
  exists f'. split; [exact Hf'|exact Heta].
Defined.

(** ** EventToDeliver: claiming and rescheduling *)

Lemma event_work_query_ready now (ds : gmap string EventToDeliver.t) k e :
  (k, e) ∈ EventToDeliver_work_query now (keyed_events ds) →
  ds !! k = Some e
  ∧ EventToDeliver.totally_failed e = false
  ∧ (EventToDeliver.last_modified e ≤ now)%Z.
Proof.
  unfold EventToDeliver_work_query. rewrite elem_of_sorted_by.
  intros [Hready Hin]%list_elem_of_filter.
  apply elem_of_map_to_list_values in Hin as [k' Hk'].
  unfold keyed_events in Hk'. rewrite map_lookup_imap in Hk'.
  destruct (ds !! k') as [e'|] eqn:He'; [|done].
  simpl in Hk'. injection Hk' as -> ->. split; [done|].
  unfold EventToDeliver_ready in Hready. simpl in Hready.
  apply andb_true_iff in Hready as [Hlm Htf].
  split; [by apply negb_true_iff|by apply Z.leb_le].
Qed.

(** X13.  [EventToDeliver.get_work] returns [None] or one event with its key;
    the event is the one the store has under that key, is not totally failed
    and has a [last_modified] that is not after the current time.  The
    datastore is as before. *)
Theorem event_get_work_returns_due
        (now : Z) (rnd : list nat) (w : World EventToDeliver.t) :
  let r := EventToDeliver_get_work now rnd w in
  match r.1 with
  | RNone => True
  | ROne (k, e) =>
      datastore w !! k = Some e
      ∧ EventToDeliver.totally_failed e = false
      ∧ (EventToDeliver.last_modified e ≤ now)%Z
  | RList _ => False
  end
  ∧ datastore r.2 = datastore w.
Proof.
  intros r. subst r. unfold EventToDeliver_get_work. cbn [fst snd datastore].
  split; [|done].
  destruct (query_and_own_shape_one (λ ke, key_str "EventToDeliver" ke.1)
              (EventToDeliver_work_query now) LEASE_PERIOD_SECONDS 20 4 rnd
              (mkWorld (keyed_events (datastore w)) (cache w) (cache_calls w)))
    as [Hnone|[[k e] Hone]].
  - by rewrite Hnone.
  - rewrite Hone. apply query_and_own_one_from_query in Hone.
    by apply event_work_query_ready in Hone.
Qed.

(** X14.  [update] at the end of a pass that leaves failures ([more_callbacks]
    false) keeps the event, clears [last_callback], turns to retry mode and
    counts one more attempt.  The event is then due for [get_work] exactly
    from [now + retry_period * 2^retry_attempts] on, and only if it was not
    totally failed and the attempts made before were fewer than
    [MAX_DELIVERY_FAILURES]. *)
Theorem update_end_of_pass_reschedules
        (key : string) (self : EventToDeliver.t)
        (more_failed_callbacks : list Subscription.t) (now : Z)
        (w : World EventToDeliver.t) :
  (0 ≤ EventToDeliver.retry_attempts self)%Z →
  EventToDeliver.failed_callbacks
    (EventToDeliver.with_failures now more_failed_callbacks self) ≠ [] →
  let r := EventToDeliver.update key self false more_failed_callbacks now
             MAX_DELIVERY_FAILURES DELIVERY_RETRY_PERIOD w in
  ∃ self',
    r.1 = EventToDeliver.Put self'
    ∧ datastore r.2 !! key = Some self'
    ∧ EventToDeliver.last_callback self' = EmptyString
    ∧ EventToDeliver.delivery_mode self' = EventToDeliver.RETRY
    ∧ EventToDeliver.retry_attempts self'
      = (EventToDeliver.retry_attempts self + 1)%Z
    ∧ ∀ t, EventToDeliver_ready t self' = true ↔
           (now + DELIVERY_RETRY_PERIOD
                  * 2 ^ EventToDeliver.retry_attempts self ≤ t)%Z
           ∧ EventToDeliver.totally_failed self = false
           ∧ (EventToDeliver.retry_attempts self < MAX_DELIVERY_FAILURES)%Z.
Proof.
  intros Hpos Hleft r. subst r. unfold EventToDeliver.update.
  destruct (EventToDeliver.failed_callbacks
              (EventToDeliver.with_failures now more_failed_callbacks self))
    as [|k ks] eqn:Hfailed; [done|].
  eexists. split; [reflexivity|]. cbn [snd datastore].
  split; [apply lookup_insert_eq|]. split; [done|].
  split; [simpl; by destruct (EventToDeliver.delivery_mode self)|].
  split; [done|]. intros t.
  unfold EventToDeliver_ready, EventToDeliver.end_of_pass,
    MAX_DELIVERY_FAILURES.
  cbn [EventToDeliver.last_modified EventToDeliver.totally_failed
       EventToDeliver.retry_attempts EventToDeliver.with_failures].
  rewrite andb_true_iff, Z.leb_le, negb_true_iff.
  destruct (8 <? EventToDeliver.retry_attempts self + 1)%Z eqn:Hmax.
  - apply Z.ltb_lt in Hmax. split; [by intros [_ ?]|intros (_ & _ & ?); lia].
  - apply Z.ltb_ge in Hmax. split; [intros [? ?]|intros (? & ? & _)];
      repeat split; try done; lia.
Qed.

Lemma update_end_of_pass_reschedules_witness :
  let sub := Subscription.new plain_digest 0 "http://s/cb" "http://p/feed"
               None in
  let self :=
    EventToDeliver.mk "hash_topic" "http://p/feed" "http://p/feed" "<feed/>"
      EmptyString [] EventToDeliver.NORMAL 0 0 false in
  let w : World EventToDeliver.t := mkWorld {[ "ev1" := self ]} ∅ [] in
  ∃ self',
    (EventToDeliver.update "ev1" self false [sub] 1000 MAX_DELIVERY_FAILURES
       DELIVERY_RETRY_PERIOD w).1 = EventToDeliver.Put self'
    ∧ EventToDeliver_ready 1059 self' = false
    ∧ EventToDeliver_ready 1060 self' = true.
Proof.
  intros sub self w.
  destruct (update_end_of_pass_reschedules "ev1" self [sub] 1000 w)
    as (self' & Hput & _ & _ & _ & _ & Hready).
  - simpl. lia.
  - discriminate.
  - exists self'. split; [exact Hput|]. split.
    + destruct (EventToDeliver_ready 1059 self') eqn:Hr; [|reflexivity].
      apply Hready in Hr as [Hr _]. simpl in Hr.
      unfold DELIVERY_RETRY_PERIOD in Hr. lia.
    + apply Hready. simpl. unfold DELIVERY_RETRY_PERIOD, MAX_DELIVERY_FAILURES.
      split; [lia|]. split; [reflexivity|lia].
Defined.

(** ** PushEventHandler *)

Lemma elem_of_push_failed (l : list Subscription.t) (results : nat → option Z)
      (s : Subscription.t) :
  s ∈ PushEventHandler.failed_callbacks l results
  ↔ ∃ i, l !! i = Some s ∧ PushEventHandler.delivered (results i) = false.
Proof.
  unfold PushEventHandler.failed_callbacks.
  rewrite list_elem_of_fmap. split.
  - intros ([s' res] & -> & [Hres Hin]%list_elem_of_filter).
    apply list_elem_of_lookup in Hin as [i Hi].
    rewrite list_lookup_imap in Hi.
    destruct (l !! i) as [s''|] eqn:Hl; [|done].
    simpl in Hi. injection Hi as -> <-. by exists i.
  - intros (i & Hi & Hres). exists (s, results i). split; [done|].
    apply list_elem_of_filter. split; [done|].
    apply list_elem_of_lookup. exists i.
    by rewrite list_lookup_imap, Hi.
Qed.

(** X15.  The push worker forgets no failure: a subscriber of the chunk whose
    POST raised, did not complete, or returned a status other than 200 and
    204 has its key in [failed_callbacks] of the event, which is stored, not
    deleted.  The keys that the event holds afterwards are those left after
    the chunk was taken and those of the failed subscribers of the chunk,
    nothing else. *)
Theorem deliver_records_failures
        (sha1_hash : string → string) (update_time : Z)
        (results : nat → option Z) (subs : gmap string Subscription.t)
        (key : string) (work : EventToDeliver.t)
        (w : World EventToDeliver.t) :
  let next := EventToDeliver.get_next_subscribers sha1_hash None work subs in
  let r := PushEventHandler.deliver sha1_hash update_time results subs key
             work w in
  (∀ i s, next.1.2 !! i = Some s →
          PushEventHandler.delivered (results i) = false →
          ∃ self', r.1 = EventToDeliver.Put self'
                   ∧ datastore r.2 !! key = Some self'
                   ∧ Subscription.key_name s
                     ∈ EventToDeliver.failed_callbacks self')
  ∧ (∀ self', r.1 = EventToDeliver.Put self' →
       ∀ k, k ∈ EventToDeliver.failed_callbacks self' ↔
            k ∈ EventToDeliver.failed_callbacks next.2
            ∨ ∃ i s, next.1.2 !! i = Some s
                     ∧ PushEventHandler.delivered (results i) = false
                     ∧ Subscription.key_name s = k).
Proof.
  intros next r. subst r. unfold PushEventHandler.deliver. fold next.
  destruct next as [[more l] work1]. cbn [fst snd].
  unfold EventToDeliver.update.
  set (failed := PushEventHandler.failed_callbacks l results).
  assert (∀ k, k ∈ EventToDeliver.failed_callbacks
                     (EventToDeliver.with_failures update_time failed work1)
               ↔ k ∈ EventToDeliver.failed_callbacks work1
                 ∨ ∃ i s, l !! i = Some s
                          ∧ PushEventHandler.delivered (results i) = false
                          ∧ Subscription.key_name s = k) as Hkeys.
  { intros k. cbn [EventToDeliver.with_failures
                   EventToDeliver.failed_callbacks].
    rewrite elem_of_app, list_elem_of_fmap.
    apply or_iff_compat_l. split.
    - intros (s & -> & Hs). apply elem_of_sorted_by, elem_of_push_failed in Hs
        as (i & Hi & Hres). by exists i, s.
    - intros (i & s & Hi & Hres & <-). exists s. split; [done|].
      apply elem_of_sorted_by, elem_of_push_failed. by exists i. }
  split.
  - intros i s Hi Hres.
    assert (Subscription.key_name s
            ∈ EventToDeliver.failed_callbacks
                (EventToDeliver.with_failures update_time failed work1))
      as Hin by (apply Hkeys; right; by exists i, s).
    destruct more.
    + eexists. split; [reflexivity|]. split; [apply lookup_insert_eq|done].
    + destruct (EventToDeliver.failed_callbacks
                  (EventToDeliver.with_failures update_time failed work1))
        as [|k ks] eqn:Hfailed; [by apply elem_of_nil in Hin|].
      eexists. split; [reflexivity|]. split; [apply lookup_insert_eq|].
      cbn [EventToDeliver.end_of_pass EventToDeliver.failed_callbacks].
      by rewrite Hfailed.
  - intros self' Hput k. rewrite <- Hkeys.
    destruct more.
    + cbn [fst] in Hput. by injection Hput as <-.
    + destruct (EventToDeliver.failed_callbacks
                  (EventToDeliver.with_failures update_time failed work1))
        as [|k' ks] eqn:Hfailed; [done|].
      cbn [fst] in Hput. injection Hput as <-.
      cbn [EventToDeliver.end_of_pass EventToDeliver.failed_callbacks].
      by rewrite Hfailed.
Qed.

Lemma deliver_records_failures_witness :
  let sub cb :=
    Subscription.set_subscription_state Subscription.STATE_VERIFIED
      (Subscription.new plain_digest 0 cb "http://p/feed" None) in
  let a := sub "http://s/a" in
  let b := sub "http://s/b" in
  let subs : gmap string Subscription.t :=
    {[ Subscription.key_name a := a; Subscription.key_name b := b ]} in
  let work :=
    EventToDeliver.mk "hash_http://p/feed" "http://p/feed" "http://p/feed"
      "<feed/>" EmptyString [] EventToDeliver.NORMAL 0 0 false in
  let w : World EventToDeliver.t := mkWorld {[ "ev1" := work ]} ∅ [] in
  let results i := if (i =? 0)%nat then Some 200%Z else None in
  ∃ self',
    datastore (PushEventHandler.deliver plain_digest 50 results subs "ev1"
                 work w).2 !! "ev1" = Some self'
    ∧ Subscription.key_name b ∈ EventToDeliver.failed_callbacks self'.
Proof.
  intros sub a b subs work w results.
  destruct (deliver_records_failures plain_digest 50 results subs "ev1" work
              w) as [Hfail _].
  destruct (Hfail 1%nat b) as (self' & _ & Hstored & Hin).
  - vm_compute. reflexivity.
  - reflexivity.
  - exists self'. split; [exact Hstored|exact Hin].
Defined.

(** X16.  The push worker deletes the event when the chunk was the last one
    ([more_subscribers] false), no failure is left from before, and every
    POST of the chunk returned 200 or 204; memcache is then left as it is.
    That is the case in particular in retry mode with an empty
    [last_callback] when at most [EVENT_SUBSCRIBER_CHUNK_SIZE] keys are in
    [failed_callbacks]. *)
Theorem deliver_completes
        (sha1_hash : string → string) (update_time : Z)
        (results : nat → option Z) (subs : gmap string Subscription.t)
        (key : string) (work : EventToDeliver.t)
        (w : World EventToDeliver.t) :
  let next := EventToDeliver.get_next_subscribers sha1_hash None work subs in
  let r := PushEventHandler.deliver sha1_hash update_time results subs key
             work w in
  (next.1.1 = false →
   EventToDeliver.failed_callbacks next.2 = [] →
   (∀ i s, next.1.2 !! i = Some s →
           PushEventHandler.delivered (results i) = true) →
   r.1 = EventToDeliver.Deleted
   ∧ datastore r.2 = delete key (datastore w)
   ∧ cache r.2 = cache w)
  ∧ (EventToDeliver.delivery_mode work = EventToDeliver.RETRY →
     EventToDeliver.last_callback work = EmptyString →
     (length (EventToDeliver.failed_callbacks work)
      ≤ EVENT_SUBSCRIBER_CHUNK_SIZE)%nat →
     next.1.1 = false ∧ EventToDeliver.failed_callbacks next.2 = []).
Proof.
  intros next r. split.
  - subst r. unfold PushEventHandler.deliver. fold next.
    destruct next as [[more l] work1]. cbn [fst snd].
    intros -> Hnone Hall.
    assert (PushEventHandler.failed_callbacks l results = []) as Hfailed.
    { destruct (PushEventHandler.failed_callbacks l results) as [|s ss] eqn:Hf;
        [done|].
      assert (s ∈ PushEventHandler.failed_callbacks l results) as Hs
        by (rewrite Hf; apply list_elem_of_here).
      apply elem_of_push_failed in Hs as (i & Hi & Hres).
      rewrite (Hall i s Hi) in Hres. done. }
    unfold EventToDeliver.update. rewrite Hfailed.
    cbn [EventToDeliver.with_failures EventToDeliver.failed_callbacks
         sorted_by foldr fmap list_fmap].
    rewrite Hnone. done.
  - subst next. unfold EventToDeliver.get_next_subscribers.
    intros -> Hcursor Hlen. cbn [default].
    destruct (decide (EventToDeliver.last_callback work = EmptyString));
      [|done].
    cbn [fst snd EventToDeliver.failed_callbacks].
    rewrite take_ge by done. rewrite drop_all. split; [|done].
    apply Nat.ltb_irrefl.
Qed.

Lemma deliver_completes_witness :
  let sub cb :=
    Subscription.set_subscription_state Subscription.STATE_VERIFIED
      (Subscription.new plain_digest 0 cb "http://p/feed" None) in
  let a := sub "http://s/a" in
  let subs : gmap string Subscription.t :=
    {[ Subscription.key_name a := a ]} in
  let work :=
    EventToDeliver.mk "hash_http://p/feed" "http://p/feed" "http://p/feed"
      "<feed/>" EmptyString [Subscription.key_name a] EventToDeliver.RETRY 1
      0 false in
  let w : World EventToDeliver.t := mkWorld {[ "ev1" := work ]} ∅ [] in
  datastore (PushEventHandler.deliver plain_digest 50 (λ _, Some 204%Z) subs
               "ev1" work w).2 = ∅.
Proof.
  intros sub a subs work w.
  destruct (deliver_completes plain_digest 50 (λ _, Some 204%Z) subs "ev1"
              work w) as [Hdone Hretry].
  destruct Hretry as [Hmore Hleft];
    [reflexivity|reflexivity
    |unfold EVENT_SUBSCRIBER_CHUNK_SIZE; simpl; lia|].
  destruct (Hdone Hmore Hleft) as (_ & Hstore & _); [by intros|].
  rewrite Hstore. apply delete_singleton_eq.
Defined.

Lemma update_frame (key : string) (self : EventToDeliver.t)
      (more_callbacks : bool) (more_failed_callbacks : list Subscription.t)
      (now max_failures retry_period : Z) (w : World EventToDeliver.t)
      (k : string) :
  k ≠ key →
  datastore (EventToDeliver.update key self more_callbacks
               more_failed_callbacks now max_failures retry_period w).2 !! k
  = datastore w !! k.
Proof.
  intros Hne. unfold EventToDeliver.update.
  destruct more_callbacks;
    [|destruct (EventToDeliver.failed_callbacks _)]; cbn [snd datastore];
    by rewrite ?lookup_insert_ne, ?lookup_delete_ne.
Qed.

(** X17.  One run of [PushEventHandler.get] touches at most one event of the
    datastore, and only one that was due: stored with a [last_modified] not
    after the handler's time and not totally failed. *)
Theorem push_get_touches_only_due
        (sha1_hash : string → string) (now update_time : Z)
        (rnd : list nat) (results : nat → option Z)
        (subs : gmap string Subscription.t) (w : World EventToDeliver.t) :
  let w' := PushEventHandler.get sha1_hash now update_time rnd results subs
              w in
  ∃ touched : option string,
    (∀ k, Some k ≠ touched → datastore w' !! k = datastore w !! k)
    ∧ ∀ k, touched = Some k →
        ∃ e, datastore w !! k = Some e
             ∧ EventToDeliver.totally_failed e = false
             ∧ (EventToDeliver.last_modified e ≤ now)%Z.
Proof.
  intros w'. subst w'. unfold PushEventHandler.get, EventToDeliver_get_work.
  destruct (query_and_own_shape_one (λ ke, key_str "EventToDeliver" ke.1)
              (EventToDeliver_work_query now) LEASE_PERIOD_SECONDS 20 4 rnd
              (mkWorld (keyed_events (datastore w)) (cache w) (cache_calls w)))
    as [Hnone|[[k e] Hone]].
  - rewrite Hnone. exists None. split; [done|]. by intros ? [=].
  - rewrite Hone. exists (Some k). split.
    + intros k' Hne. unfold PushEventHandler.deliver.
      destruct (EventToDeliver.get_next_subscribers sha1_hash None e subs)
        as [[more l] work1].
      rewrite update_frame by congruence. done.
    + intros k' [= <-]. exists e.
      apply query_and_own_one_from_query in Hone.
      by apply event_work_query_ready in Hone.
Qed.

(** ** EventToDeliver.get_next_subscribers in normal mode *)

Lemma string_leb_transitive :
  Transitive (λ a b : Subscription.t,
                String.leb (Subscription.callback_hash a)
                           (Subscription.callback_hash b) = true).
Proof.
  intros a b c Hab Hbc.
  apply Is_true_true. apply Is_true_true in Hab, Hbc.
  by etrans; [exact Hab|exact Hbc].
Qed.

Lemma string_leb_refl (a : string) : String.leb a a = true.
Proof. by destruct (String.leb_total a a). Qed.

(** X18.  Paging in normal mode skips no subscriber.
    [get_next_subscribers] returns at most [chunk_size] subscriptions and
    leaves [failed_callbacks] and the mode alone.  A stored verified
    subscription of the topic in the range of the cursor is in the returned
    chunk, or else [more_subscribers] is true and the subscription is in the
    range of the new cursor.  (Stored subscriptions are taken to carry the
    hash of their callback in [callback_hash].) *)
Theorem get_next_subscribers_normal_skips_none
        (sha1_hash : string → string) (chunk_size : option nat)
        (self : EventToDeliver.t) (subs : gmap string Subscription.t) :
  EventToDeliver.delivery_mode self = EventToDeliver.NORMAL →
  (∀ k s, subs !! k = Some s →
          Subscription.callback_hash s
          = sha1_hash (Subscription.callback s)) →
  let in_range cursor s :=
    Subscription.topic_hash s = sha1_hash (EventToDeliver.topic self)
    ∧ Subscription.subscription_state s = Subscription.STATE_VERIFIED
    ∧ (cursor = EmptyString
       ∨ String.leb (sha1_hash cursor) (Subscription.callback_hash s)
         = true) in
  let next := EventToDeliver.get_next_subscribers sha1_hash chunk_size self
                subs in
  (length next.1.2 ≤ default EVENT_SUBSCRIBER_CHUNK_SIZE chunk_size)%nat
  ∧ EventToDeliver.failed_callbacks next.2
    = EventToDeliver.failed_callbacks self
  ∧ EventToDeliver.delivery_mode next.2 = EventToDeliver.NORMAL
  ∧ (∀ s, s ∈ next.1.2 →
          in_range (EventToDeliver.last_callback self) s
          ∧ ∃ k, subs !! k = Some s)
  ∧ (∀ k s, subs !! k = Some s →
            in_range (EventToDeliver.last_callback self) s →
            s ∈ next.1.2
            ∨ (next.1.1 = true
               ∧ in_range (EventToDeliver.last_callback next.2) s)).
Proof.
  intros Hmode Hhash in_range next. subst next.
  unfold EventToDeliver.get_next_subscribers. rewrite Hmode.
  set (n := default EVENT_SUBSCRIBER_CHUNK_SIZE chunk_size).
  unfold Subscription.get_subscribers.
  fold (in_range (EventToDeliver.last_callback self)).
  set (L := sorted_by _ (filter _ _)).
  cbn [fst snd EventToDeliver.failed_callbacks EventToDeliver.delivery_mode
       EventToDeliver.last_callback].
  assert (∀ s, s ∈ L ↔ in_range (EventToDeliver.last_callback self) s
                       ∧ ∃ k, subs !! k = Some s) as HL.
  { intros s. subst L.
    by rewrite elem_of_sorted_by, list_elem_of_filter,
      elem_of_map_to_list_values. }
  assert (StronglySorted
            (λ a b, String.leb (Subscription.callback_hash a)
                               (Subscription.callback_hash b) = true) L)
    as Hsorted.
  { apply Sorted_StronglySorted; [apply string_leb_transitive|].
    apply sorted_by_Sorted. intros a b. apply string_leb_total_false. }
  assert (take n (take (n + 1) L) = take n L) as Htake
    by (rewrite take_take; f_equal; lia).
  rewrite Htake.
  split; [rewrite length_take; lia|]. split; [done|]. split; [done|].
  split.
  - intros s Hs. apply HL. by eapply elem_of_sublist; [|apply sublist_take].
  - intros k s Hk Hrange.
    assert (s ∈ L) as Hs by (apply HL; eauto).
    rewrite <- (take_drop n L) in Hs, Hsorted.
    apply elem_of_app in Hs as [Hs|Hs]; [by left|right].
    destruct (drop n L) as [|c rest] eqn:Hdrop;
      [by apply elem_of_nil in Hs|].
    assert (L !! n = Some c) as Hc.
    { rewrite <- (Nat.add_0_r n), <- lookup_drop. by rewrite Hdrop. }
    pose proof (lookup_lt_Some _ _ _ Hc) as Hlt.
    assert (c ∈ L) as HcL by (by eapply list_elem_of_lookup_2).
    apply HL in HcL as [_ [kc Hkc]].
    assert (last (take (n + 1) L) = Some c) as ->.
    { rewrite last_lookup, length_take.
      replace (Init.Nat.pred ((n + 1) `min` length L)) with n by lia.
      rewrite lookup_take_lt by lia. done. }
    split.
    { rewrite length_take. apply Nat.ltb_lt. lia. }
    destruct Hrange as (Htopic & Hstate & _).
    split; [done|]. split; [done|]. right.
    rewrite <- (Hhash kc c Hkc).
    apply StronglySorted_app_1_r in Hsorted.
    apply elem_of_cons in Hs as [->|Hs]; [apply string_leb_refl|].
    inversion Hsorted as [|? ? _ Hall]; subst.
    by apply (proj1 (Forall_forall _ _) Hall).
Qed.

Lemma get_next_subscribers_normal_skips_none_witness :
  let sub cb :=
    Subscription.set_subscription_state Subscription.STATE_VERIFIED
      (Subscription.new plain_digest 0 cb "http://p/feed" None) in
  let a := sub "http://s/a" in
  let b := sub "http://s/b" in
  let subs : gmap string Subscription.t :=
    {[ Subscription.key_name a := a; Subscription.key_name b := b ]} in
  let self :=
    EventToDeliver.mk "hash_http://p/feed" "http://p/feed" "http://p/feed"
      "<feed/>" EmptyString [] EventToDeliver.NORMAL 0 0 false in
  (length (EventToDeliver.get_next_subscribers plain_digest (Some 1%nat) self
             subs).1.2 ≤ 1)%nat.
Proof.
  intros sub a b subs self.
  apply (get_next_subscribers_normal_skips_none plain_digest (Some 1%nat)
           self subs).
  - reflexivity.
  - intros k s Hs.
    apply lookup_insert_Some in Hs as [[_ <-]|[_ Hs]]; [reflexivity|].
    apply lookup_singleton_Some in Hs as [_ <-]. reflexivity.
Defined.

(** ** EventToDeliver.create_event_for_topic: the assertions *)

(** X19.  [create_event_for_topic] fails on an assertion exactly when the
    format is neither ['atom'] nor ['rss'], or the closing tag of the format
    ([</feed>], [</channel>]) occurs nowhere in [header_footer]. *)
Theorem create_event_for_topic_fails_iff
        (sha1_hash : string → string) (topic format header_footer : string)
        (entry_payloads : list string) (now : Z) :
  EventToDeliver.create_event_for_topic sha1_hash topic format header_footer
    entry_payloads now = None
  ↔ (format ≠ ATOM ∧ format ≠ RSS)
    ∨ (format = ATOM ∧ ∀ j, ¬ occurs_at j "</feed>" header_footer)
    ∨ (format = RSS ∧ ∀ j, ¬ occurs_at j "</channel>" header_footer).
Proof.
  unfold EventToDeliver.create_event_for_topic.
  destruct (String.eqb_spec format ATOM) as [->|Hatom].
  - pose proof (rfind_spec header_footer "</feed>") as Hspec.
    destruct (rfind header_footer "</feed>") as [i|].
    + split; [done|]. intros [[? _]|[[_ Hno]|[[=] _]]]; [done|].
      destruct Hspec as [Hocc _]. by destruct (Hno i).
    + split; [|done]. intros _. right. left. by split.
  - destruct (String.eqb_spec format RSS) as [->|Hrss].
    + pose proof (rfind_spec header_footer "</channel>") as Hspec.
      destruct (rfind header_footer "</channel>") as [i|].
      * split; [done|]. intros [[_ ?]|[[[=] _]|[_ Hno]]]; [done|].
        destruct Hspec as [Hocc _]. by destruct (Hno i).
      * split; [|done]. intros _. right. right. by split.
    + split; [|done]. intros _. left. by split.
Qed.

(** ** find_feed_updates: the two result lists *)

Lemma find_feed_updates_fold_sublist
      (sha1_hash : string → string) (clock : Z) (topic : string)
      (existing_dict : gmap string (option string))
      (l : list (string * string)) :
  ∀ acc,
    ∃ items,
      items `sublist_of` l
      ∧ foldl (find_feed_updates_step sha1_hash clock topic existing_dict)
              acc l
        = (acc.1 ++ ((λ item, FeedEntryRecord.create_entry_for_topic
                                sha1_hash clock topic item.1
                                (sha1_hash item.2)) <$> items),
           acc.2 ++ items.*2).
Proof.
  induction l as [|[eid raw] l IH]; intros acc.
  - exists []. split; [done|]. simpl. rewrite !app_nil_r. by destruct acc.
  - cbn [foldl].
    destruct (IH (find_feed_updates_step sha1_hash clock topic existing_dict
                    acc (eid, raw))) as (items & Hsub & ->).
    unfold find_feed_updates_step.
    destruct (existing_dict !! eid) as [old|];
      [destruct (decide (old = Some (sha1_hash raw)))|].
    + exists items. split; [by apply sublist_cons|done].
    + exists ((eid, raw) :: items). split; [by apply sublist_skip|].
      simpl. by rewrite <- !app_assoc.
    + exists ((eid, raw) :: items). split; [by apply sublist_skip|].
      simpl. by rewrite <- !app_assoc.
Qed.

(** X20.  [find_feed_updates] fails exactly when the parser does.  Otherwise,
    whatever the store holds, the records and the payloads it returns
    correspond one to one: they come from a selection of the parsed entries,
    in the order of the feed dictionary and with no entry id twice; each
    record has its entry's id, the key of that id under the topic, and the
    sha1 of the payload at the same position. *)
Theorem find_feed_updates_records_match_payloads
        (sha1_hash : string → string)
        (filter_feed : string → string → option (string * gmap string string))
        (clock : Z) (topic format feed_content : string)
        (ds : FeedEntryRecord.store) :
  match filter_feed feed_content format with
  | None =>
      find_feed_updates sha1_hash filter_feed clock topic format
        feed_content ds = None
  | Some (header_footer, entries_map) =>
      ∃ items,
        items `sublist_of` map_to_list entries_map
        ∧ NoDup items.*1
        ∧ find_feed_updates sha1_hash filter_feed clock topic format
            feed_content ds
          = Some (header_footer,
                  (λ item, FeedEntryRecord.mk
                             (get_hash_key_name sha1_hash item.1)
                             (FeedRecord.create_key_name sha1_hash topic)
                             item.1 (sha1_hash item.1)
                             (Some (sha1_hash item.2)) clock) <$> items,
                  items.*2)
  end.
Proof.
  unfold find_feed_updates.
  destruct (filter_feed feed_content format) as [[header_footer entries_map]|];
    [|done].
  set (existing_dict := dict_of_pairs _).
  destruct (find_feed_updates_fold_sublist sha1_hash clock topic
              existing_dict (map_to_list entries_map) ([], []))
    as (items & Hsub & ->).
  exists items. split; [done|]. split; [|done].
  eapply sublist_NoDup; [apply (NoDup_fst_map_to_list entries_map)|].
  by apply fmap_sublist.
Qed.

(** ** The ingress handlers *)


Ltac status_in :=
  repeat first [apply list_elem_of_here | apply list_elem_of_further].

Section SubscriptionFrames.
Context (sha1_hash : string → string).

Lemma insert_lookup clock callback topic (ds : gmap string Subscription.t) :
  well_keyed ds →
  ∃ s, (Subscription.insert sha1_hash clock callback topic ds).2
         !! Subscription.create_key_name sha1_hash callback topic = Some s
       ∧ Subscription.subscription_state s = Subscription.STATE_VERIFIED.
Proof.
  intros Hwk. unfold Subscription.insert.
  destruct (ds !! _) as [old|] eqn:Hold; cbn [snd]; unfold Subscription.put;
    cbn [Subscription.key_name Subscription.set_subscription_state
         Subscription.set_last_modified Subscription.new].
  - rewrite (Hwk _ _ Hold), lookup_insert_eq. by eexists.
  - rewrite lookup_insert_eq. by eexists.
Qed.

Lemma insert_other clock callback topic (ds : gmap string Subscription.t) k :
  well_keyed ds →
  k ≠ Subscription.create_key_name sha1_hash callback topic →
  (Subscription.insert sha1_hash clock callback topic ds).2 !! k = ds !! k.
Proof.
  intros Hwk Hne. unfold Subscription.insert.
  destruct (ds !! _) as [old|] eqn:Hold; cbn [snd]; unfold Subscription.put;
    cbn [Subscription.key_name Subscription.set_subscription_state
         Subscription.set_last_modified Subscription.new].
  - rewrite (Hwk _ _ Hold). by rewrite lookup_insert_ne.
  - by rewrite lookup_insert_ne.
Qed.

Lemma remove_lookup callback topic (ds : gmap string Subscription.t) :
  (Subscription.remove sha1_hash callback topic ds).2
    !! Subscription.create_key_name sha1_hash callback topic = None.
Proof.
  unfold Subscription.remove.
  destruct (ds !! _) eqn:Hk; cbn [snd]; [apply lookup_delete_eq|done].
Qed.

Lemma remove_other callback topic (ds : gmap string Subscription.t) k :
  k ≠ Subscription.create_key_name sha1_hash callback topic →
  (Subscription.remove sha1_hash callback topic ds).2 !! k = ds !! k.
Proof.
  intros Hne. unfold Subscription.remove.
  destruct (ds !! _); cbn [snd]; [by rewrite lookup_delete_ne|done].
Qed.




Lemma ConfirmSubscription_true clock response mode topic callback
      verify_token hub :
  (ConfirmSubscription sha1_hash clock response mode topic callback
     verify_token hub).1 = true →
  response = Some 204%Z.
Proof.
  unfold ConfirmSubscription. destruct response as [status|]; [|done].
  destruct (status =? 204)%Z eqn:Hs; [|done].
  apply Z.eqb_eq in Hs. by subst.
Qed.

End SubscriptionFrames.







(** ** The confirm worker *)

Lemma insert_well_keyed (sha1_hash : string → string) clock callback topic
      (ds : gmap string Subscription.t) :
  well_keyed ds →
  well_keyed (Subscription.insert sha1_hash clock callback topic ds).2.
Proof.
  intros Hwk. unfold Subscription.insert.
  destruct (ds !! _); cbn [snd]; by apply put_well_keyed.
Qed.

(** X24.  When the confirm worker has claimed a subscription, it touches no
    other subscription.  If the verification GET returns 204, the answer is
    200 and a claimed pending subscribe becomes a verified subscription,
    its topic a known feed, while a claimed pending unsubscribe is removed.
    With any other outcome of the GET the answer is 500, the known feeds are
    unchanged and the subscriptions are what [confirm_failed] makes of
    them.  (Stored subscriptions are taken to sit under the key of their
    callback and topic.) *)
Theorem confirm_worker_applies_outcome
        (sha1_hash : string → string) (clock now : Z) (rnd : list nat)
        (response : option Z) (hub : Hub) (sub : Subscription.t) :
  well_keyed (subscriptions hub) →
  (∀ k s, subscriptions hub !! k = Some s →
          k = Subscription.create_key_name sha1_hash
                (Subscription.callback s) (Subscription.topic s)) →
  (Subscription_get_confirm_work now rnd
     (mkWorld (subscriptions hub) (lock_cache hub) (lock_calls hub))).1
  = ROne sub →
  let k := Subscription.key_name sub in
  let r := SubscriptionConfirmHandler_get sha1_hash clock now rnd response
             hub in
  subscriptions hub !! k = Some sub
  ∧ Subscription.subscription_state sub ≠ Subscription.STATE_VERIFIED
  ∧ (∀ k', k' ≠ k → subscriptions r.2 !! k' = subscriptions hub !! k')
  ∧ (response = Some 204%Z →
     r.1 = 200%Z
     ∧ (Subscription.subscription_state sub
        = Subscription.STATE_NOT_VERIFIED →
        (∃ s, subscriptions r.2 !! k = Some s
              ∧ Subscription.subscription_state s
                = Subscription.STATE_VERIFIED)
        ∧ known_feeds r.2
            !! get_hash_key_name sha1_hash (Subscription.topic sub)
          = Some (Subscription.topic sub))
     ∧ (Subscription.subscription_state sub = Subscription.STATE_TO_DELETE →
        subscriptions r.2 !! k = None
        ∧ known_feeds r.2 = known_feeds hub))
  ∧ (response ≠ Some 204%Z →
     r.1 = 500%Z
     ∧ known_feeds r.2 = known_feeds hub
     ∧ subscriptions r.2
       = Subscription.confirm_failed clock MAX_SUBSCRIPTION_CONFIRM_FAILURES
           SUBSCRIPTION_RETRY_PERIOD now sub (subscriptions hub)).
Proof.
  intros Hwk Hkeys Hclaim k r.
  pose proof Hclaim as Hfrom.
  apply query_and_own_one_from_query, confirm_query_ready in Hfrom
    as (Hstate & _ & [k0 Hk0]).
  cbn [datastore] in Hk0.
  pose proof (Hwk k0 sub Hk0) as Hname. fold k in Hname. subst k0.
  pose proof (Hkeys k sub Hk0) as Hk.
  split; [done|]. split; [done|].
  subst r. unfold SubscriptionConfirmHandler_get. rewrite Hclaim.
  set (hub1 := mkHub _ _ _ _ _).
  assert (∀ mode', response ≠ Some 204%Z →
            ConfirmSubscription sha1_hash clock response mode'
              (Subscription.topic sub) (Subscription.callback sub)
              (Subscription.verify_token sub) hub1 = (false, hub1))
    as Hrefused.
  { intros mode' Hne. unfold ConfirmSubscription.
    destruct response as [status|]; [|done].
    destruct (status =? 204)%Z eqn:Hs; [|done].
    apply Z.eqb_eq in Hs. by subst. }
  split; [|split].
  - intros k' Hne. rewrite Hk in Hne.
    destruct (decide (response = Some 204%Z)) as [->|Hresp].
    + unfold ConfirmSubscription.
      destruct (Subscription.subscription_state sub);
        cbn [Z.eqb Pos.eqb String.eqb Ascii.eqb Bool.eqb fst snd
             subscriptions known_feeds with_subscriptions with_known_feeds
             hub1].
      * rewrite insert_other; [by apply insert_other| |done].
        by apply insert_well_keyed.
      * done.
      * rewrite remove_other by done. by apply remove_other.
    + rewrite Hrefused by done.
      cbn [fst snd subscriptions with_subscriptions hub1].
      unfold Subscription.confirm_failed.
      destruct (_ <=? _)%Z; unfold Subscription.put;
        cbn [Subscription.key_name Subscription.set_last_modified
             Subscription.set_confirm_failures Subscription.set_eta];
        fold k; rewrite Hk; by rewrite ?lookup_delete_ne, ?lookup_insert_ne.
  - intros ->. unfold ConfirmSubscription.
    destruct (Subscription.subscription_state sub) eqn:Hst;
      cbn [Z.eqb Pos.eqb String.eqb Ascii.eqb Bool.eqb fst snd
           subscriptions known_feeds with_subscriptions with_known_feeds
           hub1]; [|done|].
    + split; [done|]. split; [|done]. intros _. rewrite Hk. split.
      * apply insert_lookup. by apply insert_well_keyed.
      * unfold KnownFeed.put_new. apply lookup_insert_eq.
    + split; [done|]. split; [done|]. intros _. rewrite Hk.
      split; [apply remove_lookup|done].
  - intros Hresp. rewrite Hrefused by done. done.
Qed.

Lemma confirm_worker_applies_outcome_witness :
  let sub := Subscription.new plain_digest 0 "http://s/cb" "http://p/feed"
               (Some "tok1") in
  let hub := mkHub {[ Subscription.key_name sub := sub ]} ∅ ∅ ∅ [] in
  ∃ s,
    subscriptions
      (SubscriptionConfirmHandler_get plain_digest 9 10 [] (Some 204%Z)
         hub).2 !! Subscription.key_name sub = Some s
    ∧ Subscription.subscription_state s = Subscription.STATE_VERIFIED.
Proof.
  intros sub hub.
  destruct (confirm_worker_applies_outcome plain_digest 9 10 []
              (Some 204%Z) hub sub) as (_ & _ & _ & Hok & _).
  - intros k s Hs. unfold hub in Hs. cbn [subscriptions] in Hs.
    apply lookup_singleton_Some in Hs as [<- <-]. reflexivity.
  - intros k s Hs. unfold hub in Hs. cbn [subscriptions] in Hs.
    apply lookup_singleton_Some in Hs as [<- <-]. reflexivity.
  - vm_compute. reflexivity.
  - destruct (Hok eq_refl) as (_ & Hverify & _).
    destruct (Hverify eq_refl) as [Hs _]. exact Hs.
Defined.

(** ** PublishHandler *)


Lemma feed_insert_lookup (sha1_hash : string → string) (clock : Z)
      (topic_list : list string) (ds : gmap string FeedToFetch.t) topic :
  topic ∈ topic_list →
  ∃ f, FeedToFetch.insert sha1_hash clock topic_list ds
         !! get_hash_key_name sha1_hash topic = Some f
       ∧ FeedToFetch.eta f = clock
       ∧ FeedToFetch.fetching_failures f = 0%Z
       ∧ FeedToFetch.totally_failed f = false.
Proof.
  induction topic_list as [|t ts IH]; intros Hin;
    [by apply elem_of_nil in Hin|].
  cbn [FeedToFetch.insert foldr]. unfold FeedToFetch.put at 1.
  cbn [FeedToFetch.key_name].
  destruct (decide (get_hash_key_name sha1_hash t
                    = get_hash_key_name sha1_hash topic)) as [Heq|Hne].
  - rewrite Heq, lookup_insert_eq. by eexists.
  - rewrite lookup_insert_ne by done.
    apply elem_of_cons in Hin as [->|Hin]; [done|]. by apply IH.
Qed.




(** ** query_and_own: work is returned when nothing is locked *)

Lemma dict_of_pairs_is_Some {Model} (key : Model → string) (l : list Model) x :
  x ∈ l → is_Some (dict_of_pairs ((λ x, (key x, x)) <$> l) !! key x).
Proof.
  intros Hx. unfold dict_of_pairs.
  destruct (list_to_map (reverse ((λ x, (key x, x)) <$> l)) !! key x)
    eqn:Hlook; [by eexists|].
  apply not_elem_of_list_to_map_2 in Hlook. destruct Hlook.
  rewrite fmap_reverse. apply elem_of_reverse, list_elem_of_fmap.
  exists (key x, x). split; [done|]. apply list_elem_of_fmap. by exists x.
Qed.

(** X26.  When the query has a candidate, none of the candidates is locked in
    memcache, and [work_count], [sample_ratio] and [lock_ratio] are positive,
    [query_and_own] returns work. *)
Theorem query_and_own_returns_work_when_unlocked
        {Model : Type} (key : Model → string)
        (gql : gmap string Model → list Model) (lease_period : Z)
        (work_count sample_ratio lock_ratio : nat) (rnd : list nat)
        (w : World Model) :
  (0 < work_count)%nat → (0 < sample_ratio)%nat → (0 < lock_ratio)%nat →
  gql (datastore w) ≠ [] →
  (∀ x, x ∈ gql (datastore w) → cache w !! key x = None) →
  returned (query_and_own key gql lease_period work_count sample_ratio
              lock_ratio rnd w).1 ≠ [].
Proof.
  intros Hwc Hsr Hlr Hcand Hfree.
  assert (work_to_do gql work_count sample_ratio w ≠ []) as Hwork.
  { unfold work_to_do. destruct (gql (datastore w)) as [|c cs]; [done|].
    destruct (work_count * sample_ratio)%nat eqn:Hn; [|done].
    apply Nat.eq_mul_0 in Hn. lia. }
  pose proof (returned_keys key gql lease_period work_count sample_ratio
                lock_ratio rnd w Hwork) as Hkeys.
  intros Hnil. rewrite Hnil in Hkeys. cbn [fmap list_fmap] in Hkeys.
  set (todo := work_to_do gql work_count sample_ratio w) in *.
  set (k := (length todo `min` (lock_ratio * work_count))%nat).
  assert (length (sample rnd todo k) = k) as Hlen
    by (apply sample_length; subst k; lia).
  destruct (sample rnd todo k) as [|x xs] eqn:Hsample.
  { assert ((lock_ratio * work_count)%nat ≠ 0%nat)
      by (apply Nat.neq_mul_0; lia).
    assert (length todo ≠ 0%nat) by (by destruct todo).
    cbn [length] in Hlen. subst k. lia. }
  assert (x ∈ sample rnd todo k) as Hx
    by (rewrite Hsample; apply list_elem_of_here).
  pose proof (dict_of_pairs_is_Some key (sample rnd todo k) x Hx) as [y Hy].
  assert (key x
          ∈ filter (λ k, k ∉ not_set_keys key gql work_count sample_ratio
                               lock_ratio rnd w)
              (dict_keys (work_map key gql work_count sample_ratio lock_ratio
                            rnd w))) as Hlocked.
  { apply elem_of_locked. split; [by exists y|].
    apply dict_of_pairs_keyed in Hy as [Hkey Hy]. rewrite <- Hkey.
    apply Hfree. apply sample_subseteq in Hy. unfold todo, work_to_do in Hy.
    by eapply elem_of_sublist; [|apply sublist_take]. }
  destruct (filter _ _) as [|l ls]; [by apply elem_of_nil in Hlocked|].
  destruct work_count; [lia|done].
Qed.

Lemma query_and_own_returns_work_when_unlocked_witness :
  let a := FeedToFetch.mk "hash_a" "http://p/a" 10 0 false in
  let w : World FeedToFetch.t := mkWorld {[ "hash_a" := a ]} ∅ [] in
  returned (FeedToFetch.get_work 100 [] w).1 ≠ [].
Proof.
  intros a w.
  apply (query_and_own_returns_work_when_unlocked FeedToFetch.key
           (FeedToFetch.work_query 100) LEASE_PERIOD_SECONDS 1 20 4 [] w);
    [lia|lia|lia|vm_compute; discriminate|].
  intros x Hx. apply lookup_empty.
Defined.

(** ** FeedRecord: conditional requests *)

(** X27.  The conditional headers of the next pull echo the last response:
    after [update], [get_request_headers] has [If-Modified-Since] exactly
    when the response had a non-empty [Last-Modified], with that value, and
    [If-None-Match] exactly when it had a non-empty [ETag], with that value;
    it has no other header.  [update] keeps the stored [header_footer] when
    it is given none. *)
Theorem conditional_headers_echo_response
        (lower : string → string) (headers : string → option string)
        (header_footer : option string) (self : FeedRecordEntity.t) :
  let record := FeedRecordEntity.update lower headers header_footer self in
  let request := FeedRecordEntity.get_request_headers record in
  let non_empty (value : option string) :=
    match value with
    | Some EmptyString => None
    | _ => value
    end in
  request !! "If-Modified-Since" = non_empty (headers "Last-Modified")
  ∧ request !! "If-None-Match" = non_empty (headers "ETag")
  ∧ (∀ name, name ≠ "If-Modified-Since" → name ≠ "If-None-Match" →
             request !! name = None)
  ∧ FeedRecordEntity.header_footer record
    = match header_footer with
      | Some _ => header_footer
      | None => FeedRecordEntity.header_footer self
      end.
Proof.
  intros record request non_empty. subst record request non_empty.
  unfold FeedRecordEntity.get_request_headers, FeedRecordEntity.update.
  cbn [FeedRecordEntity.last_modified FeedRecordEntity.etag
       FeedRecordEntity.header_footer].
  destruct (headers "Last-Modified") as [[|c1 v1]|];
    destruct (headers "ETag") as [[|c2 v2]|];
    cbn [FeedRecordEntity.truthy];
    (split; [|split; [|split; [|done]]]);
    try (intros name Hne1 Hne2);
    by simplify_map_eq.
Qed.

(** ** The pull worker *)

Section PullFeedFacts.
Context (sha1_hash : string → string) (lower : string → string).
Context (filter_feed : string → string → option (string * gmap string string)).

Lemma parse_in_order_Some clock topic content entries order format found :
  parse_in_order sha1_hash filter_feed clock topic content entries order
  = Some (format, found) →
  format ∈ order
  ∧ find_feed_updates sha1_hash filter_feed clock topic format content
      entries = Some found.
Proof.
  induction order as [|f order IH]; [done|]. cbn [parse_in_order].
  destruct (find_feed_updates sha1_hash filter_feed clock topic f content
              entries) as [found'|] eqn:Hf.
  - intros [= <- <-]. split; [apply list_elem_of_here|done].
  - intros [Hin Hfound]%IH. split; [by apply list_elem_of_further|done].
Qed.

Lemma parse_in_order_None clock topic content entries order :
  parse_in_order sha1_hash filter_feed clock topic content entries order
  = None
  ↔ ∀ format, format ∈ order →
       find_feed_updates sha1_hash filter_feed clock topic format content
         entries = None.
Proof.
  induction order as [|f order IH]; cbn [parse_in_order].
  - split; [by intros _ ? ?%elem_of_nil|done].
  - destruct (find_feed_updates sha1_hash filter_feed clock topic f content
                entries) as [found'|] eqn:Hf.
    + split; [done|]. intros Hall.
      by rewrite (Hall f (list_elem_of_here _ _)) in Hf.
    + rewrite IH. split.
      * intros Hall format [->|Hin]%elem_of_cons; [done|by apply Hall].
      * intros Hall format Hin. by apply Hall, list_elem_of_further.
Qed.

End PullFeedFacts.

(** X28.  The pull worker writes entry records and an event only on full
    success.  Either the entry records and the events are as before, or the
    topic has subscribers, the fetch returned 200, the content parsed as atom
    or rss with at least one new or changed entry, and then: the entry
    records returned by [find_feed_updates] are stored, one event with the
    payload of [create_event_for_topic] is stored under the new key, and the
    FeedToFetch is deleted.  Subscriptions are never touched. *)
Theorem pull_feed_writes_only_on_success
        (sha1_hash : string → string) (lower : string → string)
        (filter_feed : string → string → option (string * gmap string string))
        (clock : Z) (response : option http_response)
        (new_event_key : string) (work : FeedToFetch.t)
        (hub : Hub) (fs : FeedStore) :
  let topic := FeedToFetch.topic work in
  let r := pull_feed sha1_hash lower filter_feed clock response new_event_key
             work hub fs in
  subscriptions r.1 = subscriptions hub
  ∧ ((events r.2 = events fs ∧ entry_records r.2 = entry_records fs)
     ∨ ∃ resp format header_footer entities payloads event,
         response = Some resp
         ∧ status_code resp = 200%Z
         ∧ Subscription.has_subscribers sha1_hash topic (subscriptions hub)
           = true
         ∧ format ∈ [ATOM; RSS]
         ∧ find_feed_updates sha1_hash filter_feed clock topic format
             (content resp) (entry_records fs)
           = Some (header_footer, entities, payloads)
         ∧ entities ≠ []
         ∧ EventToDeliver.create_event_for_topic sha1_hash topic format
             header_footer payloads clock = Some event
         ∧ events r.2 = <[new_event_key := event]> (events fs)
         ∧ entry_records r.2
           = FeedEntryRecord.put_all entities (entry_records fs)
         ∧ feeds_to_fetch r.1
           = delete (FeedToFetch.key_name work) (feeds_to_fetch hub)).
Proof.
  intros topic r. subst r. unfold pull_feed. fold topic.
  destruct (Subscription.has_subscribers sha1_hash topic (subscriptions hub))
    eqn:Hsubs; cbn [negb]; [|by split; [|left]].
  destruct response as [resp|]; [|by split; [|left]].
  destruct (status_code resp =? 200)%Z eqn:H200; cbn [orb negb].
  2: { destruct (status_code resp =? 304)%Z; cbn [negb]; by split; [|left]. }
  apply Z.eqb_eq in H200. rewrite H200. cbn [Z.eqb Pos.eqb].
  cbn [entry_records events].
  set (order := match rfind _ _ with Some _ => _ | None => _ end).
  assert (∀ f, f ∈ order → f ∈ [ATOM; RSS]) as Horder.
  { intros f. subst order. destruct (rfind _ _); [|done].
    intros [->|[->|?%elem_of_nil]%elem_of_cons]%elem_of_cons; [| |done];
      status_in. }
  destruct (parse_in_order sha1_hash filter_feed clock topic (content resp)
              (entry_records fs) order)
    as [[format [[header_footer entities] payloads]]|] eqn:Hparse;
    [|by split; [|left]].
  apply parse_in_order_Some in Hparse as [Hformat Hfound].
  destruct entities as [|e entities].
  { cbn [fst snd events entry_records]. by split; [|left]. }
  destruct (EventToDeliver.create_event_for_topic sha1_hash topic format
              header_footer payloads clock) as [event|] eqn:Hevent;
    [|by split; [|left]].
  cbn [fst snd events entry_records subscriptions feeds_to_fetch pull_done
       with_feeds_to_fetch].
  split; [done|]. right.
  exists resp, format, header_footer, (e :: entities), payloads, event.
  repeat split; try done. by apply Horder.
Qed.

(** X29.  What becomes of the claimed FeedToFetch.  When the topic has no
    verified subscriber, the pull worker deletes it and the topic's known
    feed.  Otherwise a fetch that raised, a status other than 200 and 304,
    and a content that parses neither as atom nor as rss leave it stored as
    [fetch_failed] makes it (one more failure, a later [eta], or totally
    failed); a 304 deletes it.  The known feeds are then untouched. *)
Theorem pull_feed_accounts_for_work
        (sha1_hash : string → string) (lower : string → string)
        (filter_feed : string → string → option (string * gmap string string))
        (clock : Z) (response : option http_response)
        (new_event_key : string) (work : FeedToFetch.t)
        (hub : Hub) (fs : FeedStore) :
  let topic := FeedToFetch.topic work in
  let r := pull_feed sha1_hash lower filter_feed clock response new_event_key
             work hub fs in
  let failed :=
    FeedToFetch.fetch_failed MAX_FEED_PULL_FAILURES FEED_PULL_RETRY_PERIOD
      clock work (feeds_to_fetch hub) in
  (Subscription.has_subscribers sha1_hash topic (subscriptions hub) = false →
   feeds_to_fetch r.1 !! FeedToFetch.key_name work = None
   ∧ known_feeds r.1 !! get_hash_key_name sha1_hash topic = None
   ∧ r.2 = fs)
  ∧ (Subscription.has_subscribers sha1_hash topic (subscriptions hub) = true →
     known_feeds r.1 = known_feeds hub
     ∧ (response = None → feeds_to_fetch r.1 = failed.2)
     ∧ (∀ resp, response = Some resp →
          (status_code resp ≠ 200%Z → status_code resp ≠ 304%Z →
           feeds_to_fetch r.1 = failed.2)
          ∧ (status_code resp = 304%Z →
             feeds_to_fetch r.1
             = delete (FeedToFetch.key_name work) (feeds_to_fetch hub))
          ∧ (status_code resp = 200%Z →
             (∀ format, format ∈ [ATOM; RSS] →
                filter_feed (content resp) format = None) →
             feeds_to_fetch r.1 = failed.2))
     ∧ (feeds_to_fetch r.1 = failed.2 →
        feeds_to_fetch r.1 !! FeedToFetch.key_name work = Some failed.1)).
Proof.
  intros topic r failed. subst r. unfold pull_feed. fold topic. split.
  - intros ->. cbn [negb fst snd feeds_to_fetch known_feeds pull_done
      with_known_feeds with_feeds_to_fetch].
    by rewrite !lookup_delete_eq.
  - intros ->. cbn [negb]. split; [|split; [|split]].
    + destruct response as [resp|]; [|done].
      destruct (negb _); [done|]. destruct (_ =? 304)%Z; [done|].
      destruct (parse_in_order _ _ _ _ _ _ _)
        as [[format [[header_footer entities] payloads]]|]; [|done].
      destruct entities; [done|].
      by destruct (EventToDeliver.create_event_for_topic _ _ _ _ _ _).
    + by intros ->.
    + intros resp ->. split; [|split].
      * intros H200 H304.
        rewrite (proj2 (Z.eqb_neq _ _) H200), (proj2 (Z.eqb_neq _ _) H304).
        done.
      * intros ->. done.
      * intros -> Hfail. cbn [Z.eqb Pos.eqb orb negb].
        set (order := match rfind _ _ with Some _ => _ | None => _ end).
        assert (parse_in_order sha1_hash filter_feed clock topic
                  (content resp)
                  (entry_records
                     (mkFeedStore
                        (FeedRecordEntity.get_or_create sha1_hash clock topic
                           (feed_records fs)).2 (entry_records fs)
                        (events fs))) order = None) as ->; [|done].
        apply parse_in_order_None. intros format Hin.
        unfold find_feed_updates. rewrite Hfail; [done|].
        subst order. destruct (rfind _ _);
          apply elem_of_cons in Hin
            as [->|[->|?%elem_of_nil]%elem_of_cons]; try done; status_in.
    + intros ->. subst failed.
      destruct (fetch_failed_put MAX_FEED_PULL_FAILURES
                  FEED_PULL_RETRY_PERIOD clock work (feeds_to_fetch hub))
        as [-> _].
      apply lookup_insert_eq.
Qed.

Lemma pull_feed_accounts_for_work_witness :
  let sub :=
    Subscription.set_subscription_state Subscription.STATE_VERIFIED
      (Subscription.new plain_digest 0 "http://s/cb" "http://p/feed" None) in
  let work := FeedToFetch.mk "hash_http://p/feed" "http://p/feed" 10 0 false in
  let hub :=
    mkHub {[ Subscription.key_name sub := sub ]}
          {[ "hash_http://p/feed" := "http://p/feed" ]}
          {[ "hash_http://p/feed" := work ]} ∅ [] in
  let fs := mkFeedStore ∅ ∅ ∅ in
  feeds_to_fetch
    (pull_feed plain_digest (λ s, s) (λ _ _, None) 100 None "ev1" work hub
       fs).1 !! "hash_http://p/feed"
  = Some (FeedToFetch.mk "hash_http://p/feed" "http://p/feed" 160 1 false).
Proof.
  intros sub work hub fs.
  destruct (pull_feed_accounts_for_work plain_digest (λ s, s) (λ _ _, None)
              100 None "ev1" work hub fs) as [_ Hsubs].
  destruct Hsubs as (_ & Hraised & _ & Hstored); [vm_compute; reflexivity|].
  exact (Hstored (Hraised eq_refl)).
Defined.

(** ** PollBootstrapHandler: one run *)

Lemma key_leb_transitive :
  Transitive (λ a b : string * string, String.leb a.1 b.1 = true).
Proof.
  intros a b c Hab Hbc.
  apply Is_true_true. apply Is_true_true in Hab, Hbc.
  by etrans; [exact Hab|exact Hbc].
Qed.

Lemma last_elem_of {A} (l : list A) (x : A) : last l = Some x → x ∈ l.
Proof. rewrite last_lookup. apply list_elem_of_lookup_2. Qed.

(** X30.  One run of the bootstrap poller.  When [should_progress] says no,
    nothing changes.  Otherwise the known feeds stay as they are and the
    marker is stored with a new cursor: the key of a known feed after the
    old cursor, or none when no known feed lies after the old cursor (the
    cycle is complete).  Every known feed whose key lies after the old
    cursor and not after the new one has a fresh FeedToFetch: between the
    two cursors no known feed is skipped. *)
Theorem poll_bootstrap_enqueues_page
        (sha1_hash : string → string) (clock : Z)
        (st : PollBootstrapHandler.state) :
  let progress :=
    PollingMarker.should_progress POLLING_BOOTSTRAP_PERIOD clock
      (PollBootstrapHandler.the_mark clock st) in
  let after (k : string) :=
    match PollingMarker.current_key progress.2 with
    | Some c => String.ltb c k = true
    | None => True
    end in
  let st' := PollBootstrapHandler.get sha1_hash clock st in
  (progress.1 = false → st' = st)
  ∧ (progress.1 = true →
     PollBootstrapHandler.known_feeds st'
     = PollBootstrapHandler.known_feeds st
     ∧ ∃ mark',
         PollBootstrapHandler.marker st' = Some mark'
         ∧ PollingMarker.next_start mark'
           = PollingMarker.next_start progress.2
         ∧ (∀ c, PollingMarker.current_key mark' = Some c →
                 is_Some (PollBootstrapHandler.known_feeds st !! c)
                 ∧ after c)
         ∧ (PollingMarker.current_key mark' = None →
            ∀ k, is_Some (PollBootstrapHandler.known_feeds st !! k) →
                 ¬ after k)
         ∧ (∀ k t c,
              PollBootstrapHandler.known_feeds st !! k = Some t →
              after k →
              PollingMarker.current_key mark' = Some c →
              String.leb k c = true →
              ∃ f, PollBootstrapHandler.feeds_to_fetch st'
                     !! get_hash_key_name sha1_hash t = Some f
                   ∧ FeedToFetch.eta f = clock
                   ∧ FeedToFetch.fetching_failures f = 0%Z
                   ∧ FeedToFetch.totally_failed f = false)).
Proof.
  intros progress after st'. subst st'. unfold PollBootstrapHandler.get.
  fold progress.
  destruct progress as [go mark] eqn:Hprogress. cbn [fst snd] in *.
  split; [by intros ->|]. intros ->.
  cbn [PollBootstrapHandler.known_feeds PollBootstrapHandler.marker
       PollBootstrapHandler.feeds_to_fetch].
  split; [done|]. eexists. split; [reflexivity|].
  cbn [PollingMarker.next_start PollingMarker.current_key].
  split; [done|].
  unfold PollBootstrapHandler.fetch_known_feeds.
  set (keep := λ kv : string * string,
                 match PollingMarker.current_key mark with
                 | Some k => String.ltb k kv.1
                 | None => true
                 end = true).
  set (L := sorted_by _ (filter keep _)).
  assert (∀ k t, (k, t) ∈ L
                 ↔ PollBootstrapHandler.known_feeds st !! k = Some t
                   ∧ after k) as HL.
  { intros k t. subst L. rewrite elem_of_sorted_by, list_elem_of_filter.
    rewrite elem_of_map_to_list. subst keep after. cbn [fst].
    destruct (PollingMarker.current_key mark); tauto. }
  assert (StronglySorted (λ a b : string * string,
                            String.leb a.1 b.1 = true) L) as Hsorted.
  { apply Sorted_StronglySorted; [apply key_leb_transitive|].
    apply sorted_by_Sorted. intros a b. apply string_leb_total_false. }
  split; [|split].
  - intros c Hc.
    destruct (last (take BOOSTRAP_FEED_CHUNK_SIZE L)) as [[c' t]|] eqn:Hlast;
      [|done].
    injection Hc as ->. apply last_elem_of in Hlast.
    eapply elem_of_sublist in Hlast; [|apply sublist_take].
    apply HL in Hlast as [Hknown Hafter]. split; [by eexists|done].
  - intros Hnone k [t Hk] Hafter.
    assert ((k, t) ∈ L) as Hin by (by apply HL).
    destruct L as [|x L']; [by apply elem_of_nil in Hin|].
    destruct (last (take BOOSTRAP_FEED_CHUNK_SIZE (x :: L'))) eqn:Hlast;
      [done|].
    by apply last_None in Hlast.
  - intros k t c Hk Hafter Hc Hle.
    destruct (last (take BOOSTRAP_FEED_CHUNK_SIZE L)) as [[c' tc]|] eqn:Hlast;
      [|done].
    injection Hc as ->. apply last_elem_of in Hlast.
    assert ((k, t) ∈ take BOOSTRAP_FEED_CHUNK_SIZE L) as Hpage.
    { assert ((k, t) ∈ L) as Hin by (by apply HL).
      rewrite <- (take_drop BOOSTRAP_FEED_CHUNK_SIZE L) in Hin, Hsorted.
      apply elem_of_app in Hin as [Hin|Hin]; [done|].
      pose proof (StronglySorted_app_1_elem_of _ _ _ _ _ Hsorted Hlast Hin)
        as Hge.
      cbn [fst] in Hge.
      assert (k = c) as -> by (by apply String.leb_antisym).
      eapply elem_of_sublist in Hlast as HcL; [|apply sublist_take].
      apply HL in HcL as [Hc _]. rewrite Hk in Hc. by injection Hc as ->. }
    apply feed_insert_lookup. apply list_elem_of_fmap. by exists (k, t).
Qed.
